(** * Forecast temperature accuracy card: the comparison core

    A shallow embedding of the logic of
    [forecast-temperature-accuracy-card.js] (card version 1.4.0, and the
    station adapter of the 1.2.0 copy kept in the same tree): the unit
    normalizer, the two forecast adapters, the history store kept in
    [localStorage], the statistics engine and the refresh cycle
    [_fetchData].

    Conventions of the embedding.
    - A JavaScript number is an exact rational ([Q]): sums, quotients and
      comparisons are those of the code, without the rounding of IEEE
      doubles.  [0.8] and [0.5] are the rationals 4/5 and 1/2.
    - [null]/[undefined] are [None]; a field that may be absent in a JSON
      payload is an [option].
    - A string is a [string] of bytes; [toUpperCase] acts on ASCII letters.
    - [this] and [localStorage] form an explicit state [World]; a method
      that may throw is a computation in the monad [M], which keeps the
      state reached when the exception was raised (as JavaScript does).
    - Every [Date.now()] of a refresh cycle, every HTTP response, and
      [parseFloat] are inputs, gathered in the record [Env].
    - [localStorage.setItem] stores its argument ([getItem] then returns it);
      the persistence medium itself is not modelled further. *)

From stdpp Require Import base option list strings pretty gmap sorting.
From Stdlib Require Import Ascii QArith Qabs Qround Lqa Lia.

Open Scope Q_scope.

(** ** JavaScript builtins used by the card *)

Module JS.

(** [a < b] on numbers, as a boolean. *)
Definition ltb (a b : Q) : bool := negb (Qle_bool b a).

(** [a <= b] on numbers. *)
Definition leb (a b : Q) : bool := Qle_bool a b.

(** Truthiness of a number that is not NaN: every number but zero. *)
Definition truthy_number (a : Q) : bool := negb (Qeq_bool a 0).

(** Truthiness of a string: every string but the empty one. *)
Definition truthy_string (s : string) : bool :=
  match s with EmptyString => false | String _ _ => true end.

(** [String.prototype.toUpperCase], on ASCII letters. *)
Definition upper_ascii (c : ascii) : ascii :=
  let n := nat_of_ascii c in
  if ((97 <=? n)%nat && (n <=? 122)%nat)%bool then ascii_of_nat (n - 32) else c.

Fixpoint toUpperCase (s : string) : string :=
  match s with
  | EmptyString => EmptyString
  | String c s' => String (upper_ascii c) (toUpperCase s')
  end.

Fixpoint drop_chars (n : nat) (s : string) : string :=
  match n, s with
  | O, _ => s
  | S n', String _ s' => drop_chars n' s'
  | S _, EmptyString => EmptyString
  end.

(** [s.replace(pat, "")] for a non-empty string pattern: the first
    occurrence of [pat] is removed. *)
Fixpoint remove_first (pat s : string) : string :=
  if String.prefix pat s then drop_chars (String.length pat) s
  else match s with
       | EmptyString => EmptyString
       | String c s' => String c (remove_first pat s')
       end.

(** [s.includes(pat)]. *)
Fixpoint includes (pat s : string) : bool :=
  String.prefix pat s ||
  match s with
  | EmptyString => false
  | String _ s' => includes pat s'
  end.

Definition is_space (c : ascii) : bool :=
  let n := nat_of_ascii c in
  ((n =? 32) || ((9 <=? n) && (n <=? 13)))%nat.

Fixpoint trimStart (s : string) : string :=
  match s with
  | EmptyString => EmptyString
  | String c s' => if is_space c then trimStart s' else s
  end.

Fixpoint trimEnd (s : string) : string :=
  match s with
  | EmptyString => EmptyString
  | String c s' =>
      match trimEnd s' with
      | EmptyString => if is_space c then EmptyString else String c EmptyString
      | t => String c t
      end
  end.

(** [String.prototype.trim], on ASCII white space. *)
Definition trim (s : string) : string := trimEnd (trimStart s).

(** [a === b] between a possibly undefined value and a string. *)
Definition strict_eq (a : option string) (b : string) : bool :=
  match a with
  | Some s => String.eqb s b
  | None => false
  end.

End JS.

(** ** Configuration and the Home Assistant object *)

(** [this.config], as [setConfig] builds it (the fields of the
    presentation layer are left out). *)
Record Config := {
  temperature_sensor : string;
  latitude : option Q;
  longitude : option Q;
  tempest_api_key : option string;
  tempest_station_id : option string;
  unit_ : option string;   (* [config.unit]; [unit] is Rocq's one-element type *)
  history_days : Q;
  refresh_interval : Q;
  forecast_lookahead : Q
}.

(** One entry of [hass.states]. *)
Record SensorState := {
  state : string;
  unit_of_measurement : option string
}.

(** [this.hass]: the entity states and [config.unit_system.temperature]. *)
Record Hass := {
  states : gmap string SensorState;
  unit_system_temperature : option string
}.

(** ** Unit normalizer *)

Definition _getDisplayUnit (cfg : Config) (hass : option Hass) : string :=
  let from_locale :=
    match hass ≫= unit_system_temperature with
    | Some t => if JS.truthy_string t
                then (if String.eqb t "F" then "F" else "C")
                else "C"
    | None => "C"
    end in
  match unit_ cfg with
  | Some u => if JS.truthy_string u then JS.toUpperCase u else from_locale
  | None => from_locale
  end%string.

Definition c_to_f (value : Q) : Q := (value * 9 / 5) + 32.
Definition f_to_c (value : Q) : Q := (value - 32) * 5 / 9.

(** [(sourceUnit || '').toUpperCase().replace('DEG', '').trim()] *)
Definition sourceNorm (sourceUnit : option string) : string :=
  JS.trim (JS.remove_first "DEG" (JS.toUpperCase (default EmptyString sourceUnit))).

Definition _normalizeTemperature (cfg : Config) (hass : option Hass)
    (value : Q) (sourceUnit : option string) : Q :=
  let targetUnit := _getDisplayUnit cfg hass in
  if JS.strict_eq sourceUnit targetUnit then value
  else if JS.strict_eq sourceUnit "C" && String.eqb targetUnit "F" then c_to_f value
  else if JS.strict_eq sourceUnit "F" && String.eqb targetUnit "C" then f_to_c value
  else
    let targetNorm := JS.toUpperCase targetUnit in
    if JS.includes "C" (sourceNorm sourceUnit) && String.eqb targetNorm "F" then c_to_f value
    else if JS.includes "F" (sourceNorm sourceUnit) && String.eqb targetNorm "C" then f_to_c value
    else value.

(** ** Data model of the history store *)

(** A JSON value, for the fields of a stored payload whose shape the card
    only sniffs; an array or an object is kept as its text. *)
Inductive json :=
| JNull
| JBool (b : bool)
| JNumber (q : Q)
| JString (s : string)
| JArray (text : string)
| JObject (text : string).

(** Truthiness of a parsed JSON value. *)
Definition truthy (v : json) : bool :=
  match v with
  | JNull => false
  | JBool b => b
  | JNumber q => JS.truthy_number q
  | JString s => JS.truthy_string s
  | JArray _ | JObject _ => true
  end.

(** [typeof v === 'number'] for a field that may be absent. *)
Definition typeof_number (v : option json) : bool :=
  match v with
  | Some (JNumber _) => true
  | _ => false
  end.

(** One comparison of a forecast with the sensor reading.  [forecast] is
    kept as the JSON value found in storage: a plain number in the current
    format, an array or an object in the 1.x formats. *)
Record ComparisonRecord := {
  timestamp : Q;
  forecast : option json;
  forecastLookahead : option Q;
  actual : Q;
  delta : Q
}.

(** The object kept under one storage key.  [pending_forecasts] is the
    field of the 1.x format, absent from the logs this version writes;
    [records] is absent when the stored object has no such field. *)
Record HistoryLog := {
  pending_forecasts : option json;
  records : option (list ComparisonRecord);
  last_updated : Q
}.

(** [{ records: [], last_updated: 0 }] *)
Definition empty_log : HistoryLog :=
  {| pending_forecasts := None; records := Some []; last_updated := 0 |}.

(** What [JSON.parse(localStorage.getItem(key))] yields for a stored string:
    an exception, or the object it encodes. *)
Inductive Stored :=
| Unparsable (raw : string)
| Parsed (data : HistoryLog).

Inductive Trend := improving | degrading | stable.

(** [this._statistics] *)
Record Statistics := {
  mae : option Q;
  bias : option Q;
  trend : Trend;
  accuracy : option Q;
  recordCount : nat;
  recentRecords : list ComparisonRecord
}.

(** A point of the look-ahead series drawn on the chart. *)
Record FuturePoint := {
  fp_timestamp : Q;
  fp_temp : Q
}.

(** ** The state: the card's fields and [localStorage] *)

(** [setConfig] has run: [this.config] is there, and the test
    [!this.config] of [_fetchData] is false. *)
Record World := mkWorld {
  hass : option Hass;
  config : Config;
  _currentForecast : option Q;
  _currentForecastLookahead : option Q;
  _futureForecast : list FuturePoint;
  _currentForecastSecondary : option Q;
  _currentForecastSecondaryLookahead : option Q;
  _futureForecastSecondary : list FuturePoint;
  _currentActual : option Q;
  _statistics : option Statistics;
  _statisticsSecondary : option Statistics;
  _loading : bool;
  _error : option string;
  _lastFetch : Q;
  localStorage : gmap string Stored
}.

Definition set_currentForecast (v : option Q) (w : World) : World :=
  mkWorld (hass w) (config w) v (_currentForecastLookahead w) (_futureForecast w)
    (_currentForecastSecondary w) (_currentForecastSecondaryLookahead w)
    (_futureForecastSecondary w) (_currentActual w) (_statistics w)
    (_statisticsSecondary w) (_loading w) (_error w) (_lastFetch w) (localStorage w).

Definition set_currentForecastLookahead (v : option Q) (w : World) : World :=
  mkWorld (hass w) (config w) (_currentForecast w) v (_futureForecast w)
    (_currentForecastSecondary w) (_currentForecastSecondaryLookahead w)
    (_futureForecastSecondary w) (_currentActual w) (_statistics w)
    (_statisticsSecondary w) (_loading w) (_error w) (_lastFetch w) (localStorage w).

Definition set_futureForecast (v : list FuturePoint) (w : World) : World :=
  mkWorld (hass w) (config w) (_currentForecast w) (_currentForecastLookahead w) v
    (_currentForecastSecondary w) (_currentForecastSecondaryLookahead w)
    (_futureForecastSecondary w) (_currentActual w) (_statistics w)
    (_statisticsSecondary w) (_loading w) (_error w) (_lastFetch w) (localStorage w).

Definition set_currentForecastSecondary (v : option Q) (w : World) : World :=
  mkWorld (hass w) (config w) (_currentForecast w) (_currentForecastLookahead w)
    (_futureForecast w) v (_currentForecastSecondaryLookahead w)
    (_futureForecastSecondary w) (_currentActual w) (_statistics w)
    (_statisticsSecondary w) (_loading w) (_error w) (_lastFetch w) (localStorage w).

Definition set_currentForecastSecondaryLookahead (v : option Q) (w : World) : World :=
  mkWorld (hass w) (config w) (_currentForecast w) (_currentForecastLookahead w)
    (_futureForecast w) (_currentForecastSecondary w) v
    (_futureForecastSecondary w) (_currentActual w) (_statistics w)
    (_statisticsSecondary w) (_loading w) (_error w) (_lastFetch w) (localStorage w).

Definition set_futureForecastSecondary (v : list FuturePoint) (w : World) : World :=
  mkWorld (hass w) (config w) (_currentForecast w) (_currentForecastLookahead w)
    (_futureForecast w) (_currentForecastSecondary w)
    (_currentForecastSecondaryLookahead w) v (_currentActual w) (_statistics w)
    (_statisticsSecondary w) (_loading w) (_error w) (_lastFetch w) (localStorage w).

Definition set_currentActual (v : option Q) (w : World) : World :=
  mkWorld (hass w) (config w) (_currentForecast w) (_currentForecastLookahead w)
    (_futureForecast w) (_currentForecastSecondary w)
    (_currentForecastSecondaryLookahead w) (_futureForecastSecondary w) v
    (_statistics w) (_statisticsSecondary w) (_loading w) (_error w) (_lastFetch w)
    (localStorage w).

Definition set_statistics (v : option Statistics) (w : World) : World :=
  mkWorld (hass w) (config w) (_currentForecast w) (_currentForecastLookahead w)
    (_futureForecast w) (_currentForecastSecondary w)
    (_currentForecastSecondaryLookahead w) (_futureForecastSecondary w)
    (_currentActual w) v (_statisticsSecondary w) (_loading w) (_error w)
    (_lastFetch w) (localStorage w).

Definition set_statisticsSecondary (v : option Statistics) (w : World) : World :=
  mkWorld (hass w) (config w) (_currentForecast w) (_currentForecastLookahead w)
    (_futureForecast w) (_currentForecastSecondary w)
    (_currentForecastSecondaryLookahead w) (_futureForecastSecondary w)
    (_currentActual w) (_statistics w) v (_loading w) (_error w) (_lastFetch w)
    (localStorage w).

Definition set_loading (v : bool) (w : World) : World :=
  mkWorld (hass w) (config w) (_currentForecast w) (_currentForecastLookahead w)
    (_futureForecast w) (_currentForecastSecondary w)
    (_currentForecastSecondaryLookahead w) (_futureForecastSecondary w)
    (_currentActual w) (_statistics w) (_statisticsSecondary w) v (_error w)
    (_lastFetch w) (localStorage w).

Definition set_error (v : option string) (w : World) : World :=
  mkWorld (hass w) (config w) (_currentForecast w) (_currentForecastLookahead w)
    (_futureForecast w) (_currentForecastSecondary w)
    (_currentForecastSecondaryLookahead w) (_futureForecastSecondary w)
    (_currentActual w) (_statistics w) (_statisticsSecondary w) (_loading w) v
    (_lastFetch w) (localStorage w).

Definition set_lastFetch (v : Q) (w : World) : World :=
  mkWorld (hass w) (config w) (_currentForecast w) (_currentForecastLookahead w)
    (_futureForecast w) (_currentForecastSecondary w)
    (_currentForecastSecondaryLookahead w) (_futureForecastSecondary w)
    (_currentActual w) (_statistics w) (_statisticsSecondary w) (_loading w)
    (_error w) v (localStorage w).

Definition set_localStorage (v : gmap string Stored) (w : World) : World :=
  mkWorld (hass w) (config w) (_currentForecast w) (_currentForecastLookahead w)
    (_futureForecast w) (_currentForecastSecondary w)
    (_currentForecastSecondaryLookahead w) (_futureForecastSecondary w)
    (_currentActual w) (_statistics w) (_statisticsSecondary w) (_loading w)
    (_error w) (_lastFetch w) v.

(** ** Computations that read and write the state and may throw *)

(** A thrown [Error]; [message] is what the refresh cycle shows. *)
Record exn := Throw { message : string }.

Definition M (A : Type) : Type := World → World * (exn + A).

Definition ret {A} (a : A) : M A := λ w, (w, inr a).

Definition bind {A B} (c : M A) (k : A → M B) : M B :=
  λ w, match c w with
       | (w', inr a) => k a w'
       | (w', inl e) => (w', inl e)
       end.

Definition throw {A} (msg : string) : M A := λ w, (w, inl (Throw msg)).

Definition gets {A} (f : World → A) : M A := λ w, (w, inr (f w)).

Definition modify (f : World → World) : M unit := λ w, (f w, inr tt).

(** [try { body } catch (error) { handler }]: the handler runs in the state
    the body had reached. *)
Definition try_catch {A} (body : M A) (handler : exn → M A) : M A :=
  λ w, match body w with
       | (w', inl e) => handler e w'
       | (w', inr a) => (w', inr a)
       end.

(** [try { body } finally { fin }] *)
Definition try_finally {A} (body : M A) (fin : M unit) : M A :=
  λ w, match body w with
       | (w', r) => match fin w' with
                    | (w'', inl e) => (w'', inl e)
                    | (w'', inr _) => (w'', r)
                    end
       end.

(** [if (c) { body }] *)
Definition when (c : bool) (body : M unit) : M unit :=
  if c then body else ret tt.

Declare Scope js_scope.
Delimit Scope js_scope with js.
Notation "x <- c ;; k" := (bind c (λ x, k))
  (at level 100, c at next level, right associativity) : js_scope.
Notation "c ;; k" := (bind c (λ _, k))
  (at level 100, right associativity) : js_scope.
Open Scope js_scope.

(** The state a computation ends in, and its outcome. *)
Definition exec {A} (c : M A) (w : World) : World := fst (c w).
Definition outcome {A} (c : M A) (w : World) : exn + A := snd (c w).

(** ** History store *)

Definition STORAGE_KEY_PREFIX : string := "forecast-temp-accuracy-".
Definition DEFAULT_HISTORY_DAYS : Q := 7.
Definition DEFAULT_REFRESH_INTERVAL : Q := 60.

(** [s.replace(/\./g, '_')] *)
Fixpoint replace_dots (s : string) : string :=
  match s with
  | EmptyString => EmptyString
  | String c s' =>
      String (if Ascii.eqb c "."%char then "_"%char else c) (replace_dots s')
  end.

Definition _getStorageKey (w : World) : string :=
  STORAGE_KEY_PREFIX +:+ replace_dots (temperature_sensor (config w)).

Definition _getStorageKeySecondary (w : World) : string :=
  STORAGE_KEY_PREFIX +:+ replace_dots (temperature_sensor (config w)) +:+ "_openmeteo".

(** [JSON.parse(stored)] *)
Definition JSON_parse (stored : Stored) : M HistoryLog :=
  match stored with
  | Unparsable _ => throw "Unexpected token in JSON"
  | Parsed data => ret data
  end.

(** [localStorage.getItem(key)] *)
Definition getItem (key : string) : M (option Stored) :=
  gets (λ w, localStorage w !! key).

(** [localStorage.setItem(key, JSON.stringify(history))] *)
Definition setItem (key : string) (history : HistoryLog) : M unit :=
  modify (λ w, set_localStorage (<[key := Parsed history]> (localStorage w)) w).

(** [obj.field.method(...)] on a field that must be an array: a
    [TypeError] when the field is undefined. *)
Definition array_of {A} (field : option (list A)) (method : string) : M (list A) :=
  match field with
  | Some l => ret l
  | None => throw ("Cannot read properties of undefined (reading '" +:+ method +:+ "')")
  end.

Definition _loadHistory : M HistoryLog :=
  try_catch
    (key <- gets _getStorageKey ;;
     stored <- getItem key ;;
     match stored with
     | Some item =>
         data <- JSON_parse item ;;
         if from_option truthy false (pending_forecasts data) then ret empty_log
         else
           match records data with
           | Some (firstRecord :: _) =>
               if negb (typeof_number (forecast firstRecord)) then ret empty_log
               else ret data
           | _ => ret data
           end
     | None => ret empty_log
     end)
    (λ _, ret empty_log).

Definition _saveHistory (history : HistoryLog) : M unit :=
  try_catch
    (key <- gets _getStorageKey ;;
     setItem key history)
    (λ _, ret tt).

(** [history.records.push({...})] when no record is recent and both values
    are there; the records are left as they are otherwise. *)
Definition push_comparison (hasRecentRecord : bool) (now : Q)
    (currentForecast currentForecastLookahead currentActual : option Q)
    (recs : list ComparisonRecord) : list ComparisonRecord :=
  match hasRecentRecord, currentForecast, currentActual with
  | false, Some f, Some a =>
      recs ++ [ {| timestamp := now;
                   forecast := Some (JNumber f);
                   forecastLookahead := currentForecastLookahead;
                   actual := a;
                   delta := f - a |} ]
  | _, _, _ => recs
  end.

Definition _recordComparison (now : Q) : M unit :=
  history <- _loadHistory ;;
  cfg <- gets config ;;
  let dedupWindowMs := refresh_interval cfg * 60 * 1000 * 0.8 in
  let recentCutoff := now - dedupWindowMs in
  recs <- array_of (records history) "some" ;;
  let hasRecentRecord := existsb (λ r, JS.ltb recentCutoff (timestamp r)) recs in
  currentForecast <- gets _currentForecast ;;
  currentForecastLookahead <- gets _currentForecastLookahead ;;
  currentActual <- gets _currentActual ;;
  let pushed :=
    push_comparison hasRecentRecord now
      currentForecast currentForecastLookahead currentActual recs in
  let cutoffTime := now - (history_days cfg * 24 * 60 * 60 * 1000) in
  let kept := List.filter (λ r, JS.ltb cutoffTime (timestamp r)) pushed in
  _saveHistory {| pending_forecasts := pending_forecasts history;
                  records := Some kept;
                  last_updated := now |}.

Definition _loadHistorySecondary : M HistoryLog :=
  try_catch
    (key <- gets _getStorageKeySecondary ;;
     stored <- getItem key ;;
     match stored with
     | Some item => JSON_parse item
     | None => ret empty_log
     end)
    (λ _, ret empty_log).

Definition _saveHistorySecondary (history : HistoryLog) : M unit :=
  try_catch
    (key <- gets _getStorageKeySecondary ;;
     setItem key history)
    (λ _, ret tt).

Definition _recordComparisonSecondary (now : Q) : M unit :=
  history <- _loadHistorySecondary ;;
  cfg <- gets config ;;
  let dedupWindowMs := refresh_interval cfg * 60 * 1000 * 0.8 in
  let recentCutoff := now - dedupWindowMs in
  recs <- array_of (records history) "some" ;;
  let hasRecentRecord := existsb (λ r, JS.ltb recentCutoff (timestamp r)) recs in
  currentForecastSecondary <- gets _currentForecastSecondary ;;
  currentForecastSecondaryLookahead <- gets _currentForecastSecondaryLookahead ;;
  currentActual <- gets _currentActual ;;
  let pushed :=
    push_comparison hasRecentRecord now
      currentForecastSecondary currentForecastSecondaryLookahead currentActual recs in
  let cutoffTime := now - (history_days cfg * 24 * 60 * 60 * 1000) in
  let kept := List.filter (λ r, JS.ltb cutoffTime (timestamp r)) pushed in
  _saveHistorySecondary {| pending_forecasts := pending_forecasts history;
                           records := Some kept;
                           last_updated := now |}.

(** ** Statistics engine *)

(** [l.length], as a number. *)
Definition len {A} (l : list A) : Q := inject_Z (Z.of_nat (length l)).

(** [records.reduce((sum, r) => sum + Math.abs(r.delta), 0)] *)
Definition sumAbsError (records : list ComparisonRecord) : Q :=
  fold_left (λ sum r, sum + Qabs (delta r)) records 0.

(** [records.reduce((sum, r) => sum + r.delta, 0)] *)
Definition sumDelta (records : list ComparisonRecord) : Q :=
  fold_left (λ sum r, sum + delta r) records 0.

(** [records.slice(-n)] *)
Definition slice_last {A} (n : nat) (l : list A) : list A :=
  drop (length l - n) l.

(** The body of [_calculateStatistics] (and of its secondary twin) once
    the records are loaded; [now] is its [Date.now()]. *)
Definition statistics_of (records : list ComparisonRecord) (now : Q) : Statistics :=
  match records with
  | [] =>
      {| mae := None; bias := None; trend := stable; accuracy := None;
         recordCount := 0; recentRecords := [] |}
  | _ =>
      let mae := sumAbsError records / len records in
      let bias := sumDelta records / len records in
      let oneDayAgo := now - 24 * 60 * 60 * 1000 in
      let twoDaysAgo := now - 48 * 60 * 60 * 1000 in
      let recentRecords := List.filter (λ r, JS.ltb oneDayAgo (timestamp r)) records in
      let previousRecords :=
        List.filter (λ r, JS.ltb twoDaysAgo (timestamp r) && JS.leb (timestamp r) oneDayAgo)
          records in
      let trend :=
        if (2 <=? length recentRecords)%nat && (2 <=? length previousRecords)%nat then
          let recentMAE := sumAbsError recentRecords / len recentRecords in
          let previousMAE := sumAbsError previousRecords / len previousRecords in
          let diff := recentMAE - previousMAE in
          if JS.ltb diff (-0.5) then improving
          else if JS.ltb 0.5 diff then degrading
          else stable
        else stable in
      let accurateCount := len (List.filter (λ r, JS.leb (Qabs (delta r)) 2) records) in
      let accuracyPct := (accurateCount / len records) * 100 in
      {| mae := Some mae; bias := Some bias; trend := trend;
         accuracy := Some accuracyPct;
         recordCount := length records;
         recentRecords := slice_last 168 records |}
  end.

Definition _calculateStatistics (now : Q) : M unit :=
  history <- _loadHistory ;;
  records <- array_of (records history) "length" ;;
  modify (set_statistics (Some (statistics_of records now))).

Definition _calculateStatisticsSecondary (now : Q) : M unit :=
  history <- _loadHistorySecondary ;;
  records <- array_of (records history) "length" ;;
  modify (set_statisticsSecondary (Some (statistics_of records now))).

(** ** What a refresh cycle reads from outside *)

(** The outcome of [fetch(url)] followed by [response.json()]. *)
Inductive Fetched (A : Type) :=
| FetchRejected (msg : string)
| HttpError (status : N)
| BodyRejected (msg : string)
| Body (data : A).
Arguments FetchRejected {A} msg.
Arguments HttpError {A} status.
Arguments BodyRejected {A} msg.
Arguments Body {A} data.

(** One entry of the station provider's [forecast.hourly]: [time] in unix
    seconds, [air_temperature] in the requested unit. *)
Record HourlyEntry := {
  time : option Q;
  air_temperature : option Q
}.

Record TempestStatus := {
  status_code : option Q;
  status_message : option string
}.

Record TempestData := {
  status : option TempestStatus;
  forecast_hourly : option (list HourlyEntry)
}.

Record OpenMeteoCurrent := {
  temperature_2m : option Q
}.

(** [data.hourly] with both of its arrays. *)
Record OpenMeteoHourly := {
  hourly_time : list string;
  hourly_temperature_2m : list Q
}.

Record OpenMeteoData := {
  current : option OpenMeteoCurrent;
  hourly : option OpenMeteoHourly
}.

(** The inputs of one refresh cycle: [parseFloat], the readings of
    [Date.now()] in the order the cycle takes them, and the two HTTP
    exchanges.  The last two fields stand for the [Date] arithmetic over the
    coordinate provider's hourly arrays, given the arrays and the look-ahead
    horizon: the (timestamp, Celsius) points from now on, which the loop
    collects without throwing, and the Celsius value found at the look-ahead
    hour, whose search may throw. *)
Record Env := {
  parseFloat : string → option Q;
  now_fetchData : Q;
  now_adapter : Q;
  now_record : Q;
  now_recordSecondary : Q;
  now_statistics : Q;
  now_statisticsSecondary : Q;
  tempest_fetch : Fetched TempestData;
  openmeteo_fetch : Fetched OpenMeteoData;
  openmeteo_future_points : OpenMeteoHourly → Q → list (Q * Q);
  openmeteo_lookahead_temp : OpenMeteoHourly → Q → exn + option Q
}.

(** ** Reading the sensor *)

(** [this._normalizeTemperature(value, sourceUnit)] in state [w]. *)
Definition normalize (w : World) (value : Q) (sourceUnit : option string) : Q :=
  _normalizeTemperature (config w) (hass w) value sourceUnit.

Definition _updateActualTemperature (env : Env) : M unit :=
  h <- gets hass ;;
  cfg <- gets config ;;
  match h with
  | None => throw "Cannot read properties of undefined (reading 'states')"
  | Some h =>
      match states h !! temperature_sensor cfg with
      | None => throw ("Sensor not found: " +:+ temperature_sensor cfg)
      | Some sensorState =>
          match parseFloat env (state sensorState) with
          | None => throw ("Invalid sensor state: " +:+ state sensorState)
          | Some value =>
              modify (λ w, set_currentActual
                             (Some (normalize w value (unit_of_measurement sensorState))) w)
          end
      end
  end.

(** ** Station-based adapter *)

(** [Math.abs(t - target)]; [None] is the NaN that an undefined [t] gives. *)
Definition abs_distance (t : option Q) (target : Q) : option Q :=
  (λ t, Qabs (t - target)) <$> t.

(** [diff < closestDiff]: false when [closestDiff] is NaN. *)
Definition closer (diff : Q) (closestDiff : option Q) : bool :=
  from_option (JS.ltb diff) false closestDiff.

(** One turn of the loop [for (const hourly of hourlyForecast)] over the
    pair (selected entry, its distance). *)
Definition closest_step (target : Q) (sel : HourlyEntry * option Q)
    (hourly : HourlyEntry) : HourlyEntry * option Q :=
  match time hourly with
  | Some t =>
      if JS.truthy_number t then
        let diff := Qabs (t - target) in
        if closer diff (snd sel) then (hourly, Some diff) else sel
      else sel
  | None => sel
  end.

(** The entry of [first :: rest] that the scan selects for [target]. *)
Definition closest_hourly (target : Q) (first : HourlyEntry)
    (rest : list HourlyEntry) : HourlyEntry :=
  fst (fold_left (closest_step target) (first :: rest)
         (first, abs_distance (time first) target)).

(** [Math.floor(now / 1000)] *)
Definition unix_seconds (now : Q) : Q := inject_Z (Qfloor (now / 1000)).

(** The loop that builds [futureData] from the station's hourly entries. *)
Definition tempest_future (w : World) (currentTimestamp maxTimestamp : Q)
    (hourlyForecast : list HourlyEntry) : list FuturePoint :=
  omap (λ hourly,
          match time hourly, air_temperature hourly with
          | Some t, Some temp =>
              if JS.truthy_number t && JS.leb currentTimestamp t && JS.leb t maxTimestamp
              then Some {| fp_timestamp := t * 1000;
                           fp_temp := normalize w temp (Some "F"%string) |}
              else None
          | _, _ => None
          end)
       hourlyForecast.

Definition _fetchFromTempest (env : Env) : M unit :=
  cfg <- gets config ;;
  match tempest_fetch env with
  | FetchRejected msg => throw msg
  | HttpError st =>
      if (st =? 401)%N then throw "Tempest API: Invalid API key"
      else if (st =? 404)%N then throw "Tempest API: Station not found"
      else throw ("Tempest API error: " +:+ pretty st)
  | BodyRejected msg => throw msg
  | Body data =>
      when (from_option (λ s, negb (from_option (λ c, Qeq_bool c 0) false (status_code s)))
              false (status data))
        (throw ("Tempest API: " +:+
                match status data ≫= status_message with
                | Some m => if JS.truthy_string m then m else "Unknown error"
                | None => "Unknown error"
                end)) ;;
      match forecast_hourly data with
      | None | Some [] => throw "Tempest API: No hourly forecast data available"
      | Some (first :: rest) =>
          let hourlyForecast := first :: rest in
          let currentTimestamp := unix_seconds (now_adapter env) in
          let currentForecast := closest_hourly currentTimestamp first rest in
          match air_temperature currentForecast with
          | None => throw "Tempest API: No air_temperature in forecast"
          | Some forecastTemp =>
              modify (λ w, set_currentForecast
                             (Some (normalize w forecastTemp (Some "F"%string))) w) ;;
              if JS.ltb 0 (forecast_lookahead cfg) then
                let maxTimestamp := currentTimestamp + forecast_lookahead cfg * 3600 in
                modify (λ w, set_futureForecast
                               (tempest_future w currentTimestamp maxTimestamp hourlyForecast) w) ;;
                let lookaheadTimestamp := currentTimestamp + forecast_lookahead cfg * 3600 in
                let lookaheadForecast := closest_hourly lookaheadTimestamp first rest in
                modify (λ w, set_currentForecastLookahead
                               ((λ t, normalize w t (Some "F"%string))
                                  <$> air_temperature lookaheadForecast) w)
              else
                modify (set_currentForecastLookahead None) ;;
                modify (set_futureForecast [])
          end
      end
  end.

(** The station adapter of card version 1.2.0: the first entry within an
    hour of now, the first entry of the array when there is none. *)
Module V120.

Definition within_hour (currentHourTimestamp : Q) (hourly : HourlyEntry) : bool :=
  match time hourly with
  | Some t => JS.truthy_number t && JS.ltb (Qabs (t - currentHourTimestamp)) 3600
  | None => false
  end.

Definition currentHourForecast (currentHourTimestamp : Q) (first : HourlyEntry)
    (rest : list HourlyEntry) : HourlyEntry :=
  default first (List.find (within_hour currentHourTimestamp) (first :: rest)).

End V120.

(** ** Coordinate-based adapter *)

(** [futureData], once each Celsius value is normalized. *)
Definition openmeteo_future (w : World) (points : list (Q * Q)) : list FuturePoint :=
  List.map (λ p, {| fp_timestamp := fst p;
                    fp_temp := normalize w (snd p) (Some "C"%string) |}) points.

Definition _fetchFromOpenMeteo (env : Env) : M unit :=
  cfg <- gets config ;;
  let needsLookahead := JS.ltb 0 (forecast_lookahead cfg) in
  match openmeteo_fetch env with
  | FetchRejected msg => throw msg
  | HttpError st => throw ("Open-Meteo API error: " +:+ pretty st)
  | BodyRejected msg => throw msg
  | Body data =>
      match current data ≫= temperature_2m with
      | None => throw "Invalid Open-Meteo response - no current temperature"
      | Some t =>
          modify (λ w, set_currentForecast (Some (normalize w t (Some "C"%string))) w) ;;
          if needsLookahead then
            match hourly data with
            | None =>
                modify (set_currentForecastLookahead None) ;;
                modify (set_futureForecast [])
            | Some h =>
                modify (λ w, set_futureForecast
                               (openmeteo_future w
                                  (openmeteo_future_points env h (forecast_lookahead cfg))) w) ;;
                match openmeteo_lookahead_temp env h (forecast_lookahead cfg) with
                | inl e => throw (message e)
                | inr lookaheadTemp =>
                    modify (λ w, set_currentForecastLookahead
                                   ((λ t, normalize w t (Some "C"%string)) <$> lookaheadTemp) w)
                end
            end
          else
            modify (set_currentForecastLookahead None) ;;
            modify (set_futureForecast [])
      end
  end.

(** The three assignments of every failure branch of the secondary fetch. *)
Definition clear_secondary : M unit :=
  modify (set_currentForecastSecondary None) ;;
  modify (set_currentForecastSecondaryLookahead None) ;;
  modify (set_futureForecastSecondary []).

Definition _fetchFromOpenMeteoSecondary (env : Env) : M unit :=
  cfg <- gets config ;;
  let needsLookahead := JS.ltb 0 (forecast_lookahead cfg) in
  try_catch
    match openmeteo_fetch env with
    | FetchRejected msg => throw msg
    | HttpError st => clear_secondary
    | BodyRejected msg => throw msg
    | Body data =>
        match current data ≫= temperature_2m with
        | None => clear_secondary
        | Some t =>
            modify (λ w, set_currentForecastSecondary
                           (Some (normalize w t (Some "C"%string))) w) ;;
            if needsLookahead then
              match hourly data with
              | None =>
                  modify (set_currentForecastSecondaryLookahead None) ;;
                  modify (set_futureForecastSecondary [])
              | Some h =>
                  modify (λ w, set_futureForecastSecondary
                                 (openmeteo_future w
                                    (openmeteo_future_points env h (forecast_lookahead cfg))) w) ;;
                  match openmeteo_lookahead_temp env h (forecast_lookahead cfg) with
                  | inl e => throw (message e)
                  | inr lookaheadTemp =>
                      modify (λ w, set_currentForecastSecondaryLookahead
                                     ((λ t, normalize w t (Some "C"%string)) <$> lookaheadTemp) w)
                  end
              end
            else
              modify (set_currentForecastSecondaryLookahead None) ;;
              modify (set_futureForecastSecondary [])
        end
    end
    (λ _, clear_secondary).

(** ** The refresh cycle *)

Definition hasCoordinates (cfg : Config) : bool :=
  bool_decide (is_Some (latitude cfg)) && bool_decide (is_Some (longitude cfg)).

Definition hasTempest (cfg : Config) : bool :=
  from_option JS.truthy_string false (tempest_api_key cfg)
  && from_option JS.truthy_string false (tempest_station_id cfg).

(** Comparison mode: the station provider is primary, the coordinate
    provider the secondary reference. *)
Definition _isComparisonMode (w : World) : bool :=
  hasCoordinates (config w) && hasTempest (config w).

Definition _fetchData (env : Env) : M unit :=
  h <- gets hass ;;
  if negb (bool_decide (is_Some h)) then ret tt
  else
    modify (set_loading true) ;;
    modify (set_error None) ;;
    modify (set_lastFetch (now_fetchData env)) ;;
    try_finally
      (try_catch
         (_updateActualTemperature env ;;
          comparison <- gets _isComparisonMode ;;
          cfg <- gets config ;;
          (if comparison then
             _fetchFromTempest env ;;
             _fetchFromOpenMeteoSecondary env
           else if hasTempest cfg then _fetchFromTempest env
           else _fetchFromOpenMeteo env) ;;
          currentForecast <- gets _currentForecast ;;
          currentActual <- gets _currentActual ;;
          when (bool_decide (is_Some currentForecast) && bool_decide (is_Some currentActual))
            (_recordComparison (now_record env)) ;;
          comparison <- gets _isComparisonMode ;;
          currentForecastSecondary <- gets _currentForecastSecondary ;;
          currentActual <- gets _currentActual ;;
          when (comparison && bool_decide (is_Some currentForecastSecondary)
                && bool_decide (is_Some currentActual))
            (_recordComparisonSecondary (now_recordSecondary env)) ;;
          _calculateStatistics (now_statistics env) ;;
          comparison <- gets _isComparisonMode ;;
          when comparison (_calculateStatisticsSecondary (now_statisticsSecondary env)))
         (λ error, modify (set_error (Some (message error)))))
      (modify (set_loading false)).


(** ** Reacting to a property change *)

(** The first statement of [updated(changedProps)]: [hass_changed] is
    [changedProps.has('hass')], [now] its [Date.now()].  Its second
    statement only schedules the drawing of the chart, which reads the
    fields of this state and writes none of them. *)
Definition updated (env : Env) (hass_changed : bool) (now : Q) : M unit :=
  h <- gets hass ;;
  when (hass_changed && bool_decide (is_Some h))
    (cfg <- gets config ;;
     lastFetch <- gets _lastFetch ;;
     let intervalMs := refresh_interval cfg * 60 * 1000 in
     if JS.ltb intervalMs (now - lastFetch) || Qeq_bool lastFetch 0
     then _fetchData env
     else _updateActualTemperature env).

(** ** The configuration object *)

(** A value of the configuration object handed over by Home Assistant. *)
Inductive ConfigValue :=
| CNull
| CBool (b : bool)
| CNumber (q : Q)
| CString (s : string).

Definition truthy_value (v : ConfigValue) : bool :=
  match v with
  | CNull => false
  | CBool b => b
  | CNumber q => JS.truthy_number q
  | CString s => JS.truthy_string s
  end.

(** Truthiness of [config.key], undefined when the key is absent. *)
Definition truthy_field (o : option ConfigValue) : bool :=
  from_option truthy_value false o.

(** [config.key || d] *)
Definition or_else (o : option ConfigValue) (d : ConfigValue) : ConfigValue :=
  match o with
  | Some v => if truthy_value v then v else d
  | None => d
  end.

(** [this.config] of the card, field by field as [setConfig] builds it;
    [latitude] and [longitude] are undefined when the object given has no
    such key. *)
Module CardConfig.

Record t := {
  title : ConfigValue;
  temperature_sensor : ConfigValue;
  latitude : option ConfigValue;
  longitude : option ConfigValue;
  tempest_api_key : ConfigValue;
  tempest_station_id : ConfigValue;
  unit_ : ConfigValue;
  history_days : ConfigValue;
  refresh_interval : ConfigValue;
  show_chart : bool;
  chart_height : ConfigValue;
  forecast_lookahead : ConfigValue
}.

End CardConfig.

(** [setConfig(config)] of the card: the configuration it assigns to
    [this.config], or the error it throws. *)
Definition setConfig (config : gmap string ConfigValue) : exn + CardConfig.t :=
  if negb (truthy_field (config !! "temperature_sensor"%string)) then
    inl (Throw "temperature_sensor is required")
  else
    let hasCoordinates :=
      bool_decide (is_Some (config !! "latitude"%string))
      && bool_decide (is_Some (config !! "longitude"%string)) in
    let hasTempest :=
      truthy_field (config !! "tempest_api_key"%string)
      && truthy_field (config !! "tempest_station_id"%string) in
    if negb hasCoordinates && negb hasTempest then
      inl (Throw "A forecast source is required: latitude/longitude (Open-Meteo) or tempest_api_key/tempest_station_id (Tempest)")
    else
      inr {| CardConfig.title :=
               or_else (config !! "title"%string) (CString "Forecast Temperature Accuracy");
             CardConfig.temperature_sensor :=
               default CNull (config !! "temperature_sensor"%string);
             CardConfig.latitude := config !! "latitude"%string;
             CardConfig.longitude := config !! "longitude"%string;
             CardConfig.tempest_api_key :=
               or_else (config !! "tempest_api_key"%string) CNull;
             CardConfig.tempest_station_id :=
               or_else (config !! "tempest_station_id"%string) CNull;
             CardConfig.unit_ := or_else (config !! "unit"%string) CNull;
             CardConfig.history_days :=
               or_else (config !! "history_days"%string) (CNumber DEFAULT_HISTORY_DAYS);
             CardConfig.refresh_interval :=
               or_else (config !! "refresh_interval"%string)
                 (CNumber DEFAULT_REFRESH_INTERVAL);
             CardConfig.show_chart :=
               match config !! "show_chart"%string with
               | Some (CBool false) => false
               | _ => true
               end;
             CardConfig.chart_height :=
               or_else (config !! "chart_height"%string) (CNumber 200);
             CardConfig.forecast_lookahead :=
               or_else (config !! "forecast_lookahead"%string) (CNumber 0) |}.

(** The configuration as the methods of the card read it, when every field
    has the type they expect: strings for the sensor and the credentials,
    numbers for the rest. *)
Definition as_string (v : ConfigValue) : option string :=
  match v with CString s => Some s | _ => None end.

Definition as_number (v : ConfigValue) : option Q :=
  match v with CNumber q => Some q | _ => None end.

(** A field that is null or of the expected type. *)
Definition nullable {A} (read : ConfigValue → option A) (v : ConfigValue)
    : option (option A) :=
  match v with
  | CNull => Some None
  | _ => Some <$> read v
  end.

(** A field that is undefined or of the expected type. *)
Definition optional {A} (read : ConfigValue → option A) (o : option ConfigValue)
    : option (option A) :=
  match o with
  | None => Some None
  | Some v => Some <$> read v
  end.

Definition typed_config (c : CardConfig.t) : option Config :=
  sensor ← as_string (CardConfig.temperature_sensor c);
  lat ← optional as_number (CardConfig.latitude c);
  lon ← optional as_number (CardConfig.longitude c);
  key ← nullable as_string (CardConfig.tempest_api_key c);
  station ← nullable as_string (CardConfig.tempest_station_id c);
  u ← nullable as_string (CardConfig.unit_ c);
  days ← as_number (CardConfig.history_days c);
  interval ← as_number (CardConfig.refresh_interval c);
  lookahead ← as_number (CardConfig.forecast_lookahead c);
  Some {| temperature_sensor := sensor; latitude := lat; longitude := lon;
          tempest_api_key := key; tempest_station_id := station; unit_ := u;
          history_days := days; refresh_interval := interval;
          forecast_lookahead := lookahead |}.

(** ** The visual editor *)

(** The editor: its [_config], undefined before [setConfig], and the
    [config-changed] events it has dispatched, oldest first. *)
Record Editor := {
  _config : option (gmap string ConfigValue);
  dispatched : list (gmap string ConfigValue)
}.

Module EditorMethods.

Definition setConfig (config : gmap string ConfigValue) (ed : Editor) : Editor :=
  {| _config := Some config; dispatched := dispatched ed |}.

Definition _fireConfigChanged (newConfig : gmap string ConfigValue) (ed : Editor)
    : Editor :=
  {| _config := _config ed; dispatched := dispatched ed ++ [newConfig] |}.

(** [value] is [None] for [undefined]. *)
Definition _valueChanged (key : string) (value : option ConfigValue) (ed : Editor)
    : Editor :=
  match _config ed with
  | None => ed
  | Some config =>
      let newConfig :=
        match value with
        | None | Some (CString EmptyString) => delete key config
        | Some v => <[key := v]> config
        end in
      _fireConfigChanged newConfig
        {| _config := Some newConfig; dispatched := dispatched ed |}
  end.

Definition _getSourceType (ed : Editor) : string :=
  let config := default ∅ (_config ed) in
  if bool_decide (is_Some (config !! "tempest_api_key"%string))
     || bool_decide (is_Some (config !! "tempest_station_id"%string))
  then "tempest" else "openmeteo".

Definition _setSourceType (sourceType : string) (ed : Editor) : Editor :=
  let cleared :=
    delete "tempest_station_id"%string
      (delete "tempest_api_key"%string
         (delete "longitude"%string
            (delete "latitude"%string (default ∅ (_config ed))))) in
  let newConfig :=
    if String.eqb sourceType "tempest" then
      <["tempest_station_id"%string := CString EmptyString]>
        (<["tempest_api_key"%string := CString EmptyString]> cleared)
    else
      <["longitude"%string := CNumber 0]> (<["latitude"%string := CNumber 0]> cleared) in
  _fireConfigChanged newConfig
    {| _config := Some newConfig; dispatched := dispatched ed |}.

Definition _toggleComparison (enabled : bool) (ed : Editor) : Editor :=
  let config := default ∅ (_config ed) in
  let newConfig :=
    if enabled then
      <["longitude"%string := CNumber 0]> (<["latitude"%string := CNumber 0]> config)
    else delete "longitude"%string (delete "latitude"%string config) in
  _fireConfigChanged newConfig
    {| _config := Some newConfig; dispatched := dispatched ed |}.

End EditorMethods.

(** ** The refresh timer *)

(** [this._refreshTimer] with the interval timers of the page: the active
    ones with their periods, and the identifier [setInterval] hands out
    next (identifiers are positive and never reused). *)
Record Timers := {
  _refreshTimer : option positive;
  intervals : gmap positive Q;
  next_timer : positive
}.

(** [setInterval(callback, period)]: the new identifier and the timers. *)
Definition setInterval (period : Q) (t : Timers) : positive * Timers :=
  (next_timer t,
   {| _refreshTimer := _refreshTimer t;
      intervals := <[next_timer t := period]> (intervals t);
      next_timer := Pos.succ (next_timer t) |}).

Definition clearInterval (id : positive) (t : Timers) : Timers :=
  {| _refreshTimer := _refreshTimer t;
     intervals := delete id (intervals t);
     next_timer := next_timer t |}.

Definition _stopRefreshTimer (t : Timers) : Timers :=
  match _refreshTimer t with
  | Some id =>
      let t' := clearInterval id t in
      {| _refreshTimer := None; intervals := intervals t'; next_timer := next_timer t' |}
  | None => t
  end.

Definition _startRefreshTimer (cfg : Config) (t : Timers) : Timers :=
  let t0 := _stopRefreshTimer t in
  let intervalMs := refresh_interval cfg * 60 * 1000 in
  let (id, t1) := setInterval intervalMs t0 in
  {| _refreshTimer := Some id; intervals := intervals t1; next_timer := next_timer t1 |}.

(** ** Loading the chart library *)

(** The three module-level variables of the loader, [window.ApexCharts]
    (defined or not), the script elements appended whose [onload] or
    [onerror] has not fired yet, and the promises settled so far.  A promise
    is named by a number. *)
Record Loader := {
  apexChartsLoaded : bool;
  apexChartsLoading : bool;
  apexChartsCallbacks : list nat;
  window_ApexCharts : bool;
  scripts_in_flight : nat;
  resolved : list nat;
  rejected : list nat
}.

Definition loader_start : Loader :=
  {| apexChartsLoaded := false; apexChartsLoading := false; apexChartsCallbacks := [];
     window_ApexCharts := false; scripts_in_flight := 0; resolved := []; rejected := [] |}.

(** [loadApexCharts()], returning the promise [p]. *)
Definition loadApexCharts (p : nat) (l : Loader) : Loader :=
  if apexChartsLoaded l && window_ApexCharts l then
    {| apexChartsLoaded := apexChartsLoaded l; apexChartsLoading := apexChartsLoading l;
       apexChartsCallbacks := apexChartsCallbacks l;
       window_ApexCharts := window_ApexCharts l;
       scripts_in_flight := scripts_in_flight l;
       resolved := resolved l ++ [p]; rejected := rejected l |}
  else if apexChartsLoading l then
    {| apexChartsLoaded := apexChartsLoaded l; apexChartsLoading := true;
       apexChartsCallbacks := apexChartsCallbacks l ++ [p];
       window_ApexCharts := window_ApexCharts l;
       scripts_in_flight := scripts_in_flight l;
       resolved := resolved l; rejected := rejected l |}
  else
    {| apexChartsLoaded := apexChartsLoaded l; apexChartsLoading := true;
       apexChartsCallbacks := apexChartsCallbacks l ++ [p];
       window_ApexCharts := window_ApexCharts l;
       scripts_in_flight := S (scripts_in_flight l);
       resolved := resolved l; rejected := rejected l |}.

(** [script.onload], fired once the script has run and defined
    [window.ApexCharts]. *)
Definition script_onload (l : Loader) : Loader :=
  {| apexChartsLoaded := true; apexChartsLoading := false;
     apexChartsCallbacks := [];
     window_ApexCharts := true;
     scripts_in_flight := pred (scripts_in_flight l);
     resolved := resolved l ++ apexChartsCallbacks l; rejected := rejected l |}.

(** [script.onerror] *)
Definition script_onerror (l : Loader) : Loader :=
  {| apexChartsLoaded := apexChartsLoaded l; apexChartsLoading := false;
     apexChartsCallbacks := [];
     window_ApexCharts := window_ApexCharts l;
     scripts_in_flight := pred (scripts_in_flight l);
     resolved := resolved l; rejected := rejected l ++ apexChartsCallbacks l |}.

(** What happens to the loader: a call, or the end of a script in flight. *)
Inductive LoaderEvent :=
| Call (p : nat)
| ScriptLoaded
| ScriptFailed.

(** One event; a script can only end while one is in flight. *)
Definition loader_step (l : Loader) (ev : LoaderEvent) : option Loader :=
  match ev with
  | Call p => Some (loadApexCharts p l)
  | ScriptLoaded =>
      if (0 <? scripts_in_flight l)%nat then Some (script_onload l) else None
  | ScriptFailed =>
      if (0 <? scripts_in_flight l)%nat then Some (script_onerror l) else None
  end.

Fixpoint loader_run (l : Loader) (evs : list LoaderEvent) : option Loader :=
  match evs with
  | [] => Some l
  | ev :: evs' => loader_step l ev ≫= λ l', loader_run l' evs'
  end.

(** The promises the calls of a run returned. *)
Definition called (evs : list LoaderEvent) : list nat :=
  omap (λ ev, match ev with Call p => Some p | _ => None end) evs.
(** * Vocabulary of the specification *)

(** ** Unit normalizer *)

(** What the code takes a source unit string to denote: the letter occurs
    in the unit once upper-cased, stripped of "DEG" and trimmed. *)
Definition denotes (letter : string) (sourceUnit : option string) : Prop :=
  JS.includes letter (sourceNorm sourceUnit) = true.





(** ** History store *)

(** The shape test of [_loadHistory]: a truthy [pending_forecasts], or a
    first record whose [forecast] is not a number. *)
Definition is_legacy (data : HistoryLog) : bool :=
  from_option truthy false (pending_forecasts data) ||
  match records data with
  | Some (firstRecord :: _) => negb (typeof_number (forecast firstRecord))
  | _ => false
  end.

(** The log that loading yields for the content of a storage slot. *)
Definition loaded (slot : option Stored) : HistoryLog :=
  match slot with
  | Some (Parsed data) => if is_legacy data then empty_log else data
  | _ => empty_log
  end.

(** The same without the shape test, as the secondary store loads. *)
Definition loaded_secondary (slot : option Stored) : HistoryLog :=
  match slot with
  | Some (Parsed data) => data
  | _ => empty_log
  end.

(** The records kept under a storage key: those of the stored object, none
    when the slot is empty, unparsable or without a [records] array. *)
Definition stored_records (key : string) (w : World) : list ComparisonRecord :=
  match localStorage w !! key with
  | Some (Parsed data) => default [] (records data)
  | _ => []
  end.

(** A log in the current format: every record has a plain number as its
    forecast, and there is no truthy [pending_forecasts]. *)
Definition current_format (data : HistoryLog) : Prop :=
  from_option truthy false (pending_forecasts data) = false ∧
  ∃ recs, records data = Some recs ∧
          Forall (λ r, typeof_number (forecast r) = true) recs.

(** [refreshIntervalMinutes * 60000 * 0.8] *)
Definition dedupWindow (cfg : Config) : Q := refresh_interval cfg * 60000 * (8 # 10).

(** [retentionDays * 86400000] *)
Definition retention (cfg : Config) : Q := history_days cfg * 86400000.

(** The record that an append at [now] adds. *)
Definition comparison_at (now f : Q) (lookahead : option Q) (a : Q) : ComparisonRecord :=
  {| timestamp := now; forecast := Some (JNumber f); forecastLookahead := lookahead;
     actual := a; delta := f - a |}.

#[global] Instance Qlt_decision (a b : Q) : Decision (a < b).
Proof.
  destruct (Qlt_le_dec a b) as [H|H]; [left; exact H | right; apply Qle_not_lt; exact H].
Defined.

#[global] Instance Qle_decision (a b : Q) : Decision (a <= b).
Proof.
  destruct (Qlt_le_dec b a) as [H|H]; [right; apply Qlt_not_le; exact H | left; exact H].
Defined.

(** Some record is newer than [now - dedupWindow]. *)
Definition has_recent (cfg : Config) (now : Q) (recs : list ComparisonRecord) : Prop :=
  Exists (λ r, now - dedupWindow cfg < timestamp r) recs.

#[global] Instance has_recent_decision cfg now recs : Decision (has_recent cfg now recs).
Proof. unfold has_recent. apply _. Defined.


(** The records not older than the retention window at [now]. *)
Definition retained (cfg : Config) (now : Q) (recs : list ComparisonRecord)
    : list ComparisonRecord :=
  filter (λ r, now - retention cfg < timestamp r) recs.

(** ** Statistics *)

Definition sum (l : list Q) : Q := fold_right Qplus 0 l.

(** The arithmetic mean. *)
Definition mean (l : list Q) : Q := sum l / len l.

Definition abs_errors (recs : list ComparisonRecord) : list Q :=
  List.map (λ r, Qabs (delta r)) recs.

Definition errors (recs : list ComparisonRecord) : list Q :=
  List.map delta recs.

(** The number of records with [|delta| <= 2.0]. *)
Fixpoint accurate_count (recs : list ComparisonRecord) : nat :=
  match recs with
  | [] => 0
  | r :: recs' =>
      (if decide (Qabs (delta r) <= 2) then 1 else 0) + accurate_count recs'
  end.





(** ** Refresh cycle *)

(** [w'] is [w] but for the three fields of the primary forecast. *)
Definition agrees_but_primary (w w' : World) : Prop :=
  w' = set_futureForecast (_futureForecast w')
         (set_currentForecastLookahead (_currentForecastLookahead w')
            (set_currentForecast (_currentForecast w') w)).

(** The adapter of the primary source: the station provider when its
    credentials are configured, the coordinate provider otherwise. *)
Definition primary_adapter (env : Env) (cfg : Config) : M unit :=
  if hasTempest cfg then _fetchFromTempest env else _fetchFromOpenMeteo env.

(** The ways the secondary fetch fails: the request or the decoding of its
    body throws, the response is an HTTP error, the body lacks the current
    temperature, or the look-ahead search throws. *)
Inductive secondary_fails (env : Env) (cfg : Config) : Prop :=
| secondary_rejected msg :
    openmeteo_fetch env = FetchRejected msg → secondary_fails env cfg
| secondary_http_error st :
    openmeteo_fetch env = HttpError st → secondary_fails env cfg
| secondary_body_rejected msg :
    openmeteo_fetch env = BodyRejected msg → secondary_fails env cfg
| secondary_no_current data :
    openmeteo_fetch env = Body data →
    current data ≫= temperature_2m = None →
    secondary_fails env cfg
| secondary_lookahead_throws data t h e :
    openmeteo_fetch env = Body data →
    current data ≫= temperature_2m = Some t →
    JS.ltb 0 (forecast_lookahead cfg) = true →
    hourly data = Some h →
    openmeteo_lookahead_temp env h (forecast_lookahead cfg) = inl e →
    secondary_fails env cfg.

(** ** Order of the stored records *)

(** Timestamps strictly in insertion order. *)
Definition increasing (recs : list ComparisonRecord) : Prop :=
  StronglySorted (λ r1 r2, timestamp r1 < timestamp r2) recs.

(** The statistics of an empty record list. *)
Definition no_statistics : Statistics :=
  {| mae := None; bias := None; trend := stable; accuracy := None;
     recordCount := 0; recentRecords := [] |}.

(** ** What a computation leaves alone *)

(** [c] run from [w] leaves the view [v] of the state as it was, whether
    it returns or throws. *)
Definition keeps_at {A V} (v : World → V) (c : M A) (w : World) : Prop :=
  v (exec c w) = v w.

Definition keeps {A V} (v : World → V) (c : M A) : Prop :=
  ∀ w, keeps_at v c w.

(** The inputs a cycle works from: [hass], the configuration and the
    instant of the last fetch. *)
Definition cycle_inputs (w : World) : option Hass * Config * Q :=
  (hass w, config w, _lastFetch w).

(** What belongs to the secondary source: its three forecast fields, its
    statistics and its storage slot (with the configuration, which names
    the slot). *)
Definition secondary_view (w : World)
    : Config * option Q * option Q * list FuturePoint * option Statistics * option Stored :=
  (config w, _currentForecastSecondary w, _currentForecastSecondaryLookahead w,
   _futureForecastSecondary w, _statisticsSecondary w,
   localStorage w !! _getStorageKeySecondary w).

(** [w'] is [w] but for the three fields of the secondary forecast. *)
Definition agrees_but_secondary (w w' : World) : Prop :=
  w' = set_futureForecastSecondary (_futureForecastSecondary w')
         (set_currentForecastSecondaryLookahead (_currentForecastSecondaryLookahead w')
            (set_currentForecastSecondary (_currentForecastSecondary w') w)).

(** The guarded body of [_fetchData], from the sensor reading to the
    handler of its [catch]. *)
Definition guarded_cycle (env : Env) : M unit :=
  try_catch
    (_updateActualTemperature env ;;
     comparison <- gets _isComparisonMode ;;
     cfg <- gets config ;;
     (if comparison then
        _fetchFromTempest env ;;
        _fetchFromOpenMeteoSecondary env
      else if hasTempest cfg then _fetchFromTempest env
      else _fetchFromOpenMeteo env) ;;
     currentForecast <- gets _currentForecast ;;
     currentActual <- gets _currentActual ;;
     when (bool_decide (is_Some currentForecast) && bool_decide (is_Some currentActual))
       (_recordComparison (now_record env)) ;;
     comparison <- gets _isComparisonMode ;;
     currentForecastSecondary <- gets _currentForecastSecondary ;;
     currentActual <- gets _currentActual ;;
     when (comparison && bool_decide (is_Some currentForecastSecondary)
           && bool_decide (is_Some currentActual))
       (_recordComparisonSecondary (now_recordSecondary env)) ;;
     _calculateStatistics (now_statistics env) ;;
     comparison <- gets _isComparisonMode ;;
     when comparison (_calculateStatisticsSecondary (now_statisticsSecondary env)))
    (λ error, modify (set_error (Some (message error)))).

(** ** Sessions of the editor *)

(** What the user does in the editor. *)
Inductive EditorAction :=
| ValueChanged (key : string) (value : option ConfigValue)
| SetSourceType (sourceType : string)
| ToggleComparison (enabled : bool).

Definition editor_do (ed : Editor) (a : EditorAction) : Editor :=
  match a with
  | ValueChanged key value => EditorMethods._valueChanged key value ed
  | SetSourceType sourceType => EditorMethods._setSourceType sourceType ed
  | ToggleComparison enabled => EditorMethods._toggleComparison enabled ed
  end.

Definition editor_run (ed : Editor) (actions : list EditorAction) : Editor :=
  fold_left editor_do actions ed.

(** The four keys that name a forecast source. *)
Definition source_keys : list string :=
  ["latitude"; "longitude"; "tempest_api_key"; "tempest_station_id"]%string.

(** ** Life of the refresh timer *)

Inductive TimerCall :=
| StartRefreshTimer (cfg : Config)
| StopRefreshTimer.

Definition timer_do (t : Timers) (c : TimerCall) : Timers :=
  match c with
  | StartRefreshTimer cfg => _startRefreshTimer cfg t
  | StopRefreshTimer => _stopRefreshTimer t
  end.

(** A page on which the card has no timer yet: the active intervals, all
    handed out before [next], belong to others. *)
Definition timers_of_page (others : gmap positive Q) (next : positive) : Timers :=
  {| _refreshTimer := None; intervals := others; next_timer := next |}.

(** The timers of a page on which the card holds at most one: none of its
    own when [_refreshTimer] is null, and otherwise the one it names, added
    to those of the others. *)
Definition one_timer (others : gmap positive Q) (t : Timers) : Prop :=
  match _refreshTimer t with
  | None => intervals t = others
  | Some id => others !! id = None ∧ ∃ period, intervals t = <[id := period]> others
  end.

(** ** Life of the loader *)

(** The state of the loader is coherent: a script is in flight exactly
    while [apexChartsLoading] holds, and there is only one; no promise waits
    unless a script is in flight. *)
Definition loader_coherent (l : Loader) : Prop :=
  scripts_in_flight l = (if apexChartsLoading l then 1 else 0)%nat
  ∧ (apexChartsLoading l = false → apexChartsCallbacks l = []).

(** The promises handed out that the loader still knows of: settled, or
    waiting. *)
Definition accounted (l : Loader) : list nat :=
  resolved l ++ rejected l ++ apexChartsCallbacks l.

(** * Concrete inputs *)

Module Sample.

Local Open Scope string_scope.

(** A card on the coordinate provider, Celsius, hourly refresh, seven days
    of history. *)
Definition cfg : Config :=
  {| temperature_sensor := "sensor.outdoor";
     latitude := Some 52; longitude := Some 13;
     tempest_api_key := None; tempest_station_id := None;
     unit_ := Some "C";
     history_days := DEFAULT_HISTORY_DAYS;
     refresh_interval := DEFAULT_REFRESH_INTERVAL;
     forecast_lookahead := 0 |}.

Definition key : string := "forecast-temp-accuracy-sensor_outdoor".

(** A sensor reading 19 degrees, with no unit attribute. *)
Definition home : Hass :=
  {| states := {[ "sensor.outdoor" := {| state := "19"; unit_of_measurement := None |} ]};
     unit_system_temperature := Some "°C" |}.

(** The card with forecast 20 and actual 19 in hand, over a given storage. *)
Definition card (c : Config) (store : gmap string Stored) : World :=
  {| hass := Some home; config := c;
     _currentForecast := Some 20; _currentForecastLookahead := None;
     _futureForecast := [];
     _currentForecastSecondary := None; _currentForecastSecondaryLookahead := None;
     _futureForecastSecondary := [];
     _currentActual := Some 19;
     _statistics := None; _statisticsSecondary := None;
     _loading := false; _error := None; _lastFetch := 0;
     localStorage := store |}.

(** A comparison recorded at 9 999 000 ms: forecast 21, actual 20. *)
Definition r0 : ComparisonRecord := comparison_at 9999000 21 None 20.

Definition log0 : HistoryLog :=
  {| pending_forecasts := None; records := Some [r0]; last_updated := 9999000 |}.

(** The same log with a [pending_forecasts] field holding [null]. *)
Definition log_null_pending : HistoryLog :=
  {| pending_forecasts := Some JNull; records := Some [r0]; last_updated := 9999000 |}.

(** A 1.x payload: a non-empty [pending_forecasts] array. *)
Definition log_legacy : HistoryLog :=
  {| pending_forecasts := Some (JArray "[{}]"); records := Some [r0];
     last_updated := 9999000 |}.

Definition now1 : Q := 10000000.
Definition now2 : Q := 10001000.

End Sample.

(** Four comparisons for the trend: two between 48 h and 24 h before
    [Trend.now] with errors 3 and 2, two in the last 24 h with errors 1
    and 0.8. *)
Module Trend.

Definition now : Q := 200000000.
Definition p1 : ComparisonRecord := comparison_at 30000000 23 None 20.
Definition p2 : ComparisonRecord := comparison_at 60000000 18 None 20.
Definition c1 : ComparisonRecord := comparison_at 150000000 21 None 20.
Definition c2 : ComparisonRecord := comparison_at 190000000 20.8 None 20.

Definition log : HistoryLog :=
  {| pending_forecasts := None; records := Some [p1; p2; c1; c2];
     last_updated := 190000000 |}.

Definition world : World := Sample.card Sample.cfg {[ Sample.key := Parsed log ]}.

End Trend.

(** The station provider, for the choice of the current hourly entry. *)
Module Station.

Local Open Scope string_scope.

(** Comparison mode, Fahrenheit display: station credentials next to the
    coordinates. *)
Definition cfg : Config :=
  {| temperature_sensor := "sensor.outdoor";
     latitude := Some 52; longitude := Some 13;
     tempest_api_key := Some "key"; tempest_station_id := Some "4711";
     unit_ := Some "F";
     history_days := DEFAULT_HISTORY_DAYS;
     refresh_interval := DEFAULT_REFRESH_INTERVAL;
     forecast_lookahead := 0 |}.

(** The instant of the fetch: 1 700 000 000 s, in milliseconds. *)
Definition now : Q := 1700000000000.

(** An array whose first entry has no [time]; the second is for this very
    second. *)
Definition untimed : HourlyEntry := {| time := None; air_temperature := Some 50 |}.
Definition on_time : HourlyEntry :=
  {| time := Some 1700000000; air_temperature := Some 60 |}.

(** An array as the provider sends it at ten to the hour: the entry of the
    running hour, 3000 s old, then the entry of the next hour, 600 s ahead. *)
Definition running_hour : HourlyEntry :=
  {| time := Some 1699997000; air_temperature := Some 50 |}.
Definition next_hour : HourlyEntry :=
  {| time := Some 1700000600; air_temperature := Some 60 |}.

Definition answer (hourlyForecast : list HourlyEntry) : Fetched TempestData :=
  Body {| status := Some {| status_code := Some 0; status_message := Some "SUCCESS" |};
          forecast_hourly := Some hourlyForecast |}.

(** A cycle in which the station answers with [hourlyForecast] and the
    coordinate provider with [secondary]. *)
Definition env (hourlyForecast : list HourlyEntry) (secondary : Fetched OpenMeteoData)
    : Env :=
  {| parseFloat := λ s, if String.eqb s "19" then Some 19 else None;
     now_fetchData := now;
     now_adapter := now;
     now_record := now;
     now_recordSecondary := now;
     now_statistics := now;
     now_statisticsSecondary := now;
     tempest_fetch := answer hourlyForecast;
     openmeteo_fetch := secondary;
     openmeteo_future_points := λ _ _, [];
     openmeteo_lookahead_temp := λ _ _, inr None |}.

(** The card before its first cycle, over an empty storage. *)
Definition fresh (c : Config) : World :=
  {| hass := Some Sample.home; config := c;
     _currentForecast := None; _currentForecastLookahead := None;
     _futureForecast := [];
     _currentForecastSecondary := None; _currentForecastSecondaryLookahead := None;
     _futureForecastSecondary := [];
     _currentActual := None;
     _statistics := None; _statisticsSecondary := None;
     _loading := true; _error := None; _lastFetch := 0;
     localStorage := ∅ |}.

End Station.

(** * Further concrete inputs *)

Module Corrupt.

(** A card over a slot whose content does not parse. *)
Definition world : World :=
  Sample.card Sample.cfg {[ Sample.key := Unparsable "{records:" ]}.

End Corrupt.

Module Missing.

Local Open Scope string_scope.

(** The configuration of [Sample.cfg] on a sensor that [Sample.home] does
    not have. *)
Definition cfg : Config :=
  {| temperature_sensor := "sensor.gone";
     latitude := Some 52; longitude := Some 13;
     tempest_api_key := None; tempest_station_id := None;
     unit_ := Some "C";
     history_days := DEFAULT_HISTORY_DAYS;
     refresh_interval := DEFAULT_REFRESH_INTERVAL;
     forecast_lookahead := 0 |}.

End Missing.

(** A configuration as written in the dashboard: a sensor, coordinates,
    and a station key left empty. *)
Module Yaml.

Local Open Scope string_scope.

Definition raw : gmap string ConfigValue :=
  {[ "temperature_sensor" := CString "sensor.outdoor";
     "latitude" := CNumber 52;
     "longitude" := CNumber 13;
     "tempest_api_key" := CString "" ]}.

(** What the card makes of it. *)
Definition cfg : Config :=
  {| temperature_sensor := "sensor.outdoor";
     latitude := Some 52; longitude := Some 13;
     tempest_api_key := None; tempest_station_id := None;
     unit_ := None;
     history_days := 7; refresh_interval := 60; forecast_lookahead := 0 |}.

(** An editor opened on a configuration with the sensor only. *)
Definition editor : Editor :=
  {| _config := Some {[ "temperature_sensor" := CString "sensor.outdoor" ]};
     dispatched := [] |}.

End Yaml.

(** * Properties *)

(** ** Comparisons *)

Lemma ltb_lt (a b : Q) : JS.ltb a b = true ↔ a < b.
Proof.
  unfold JS.ltb. rewrite negb_true_iff.
  split.
  - intros H. apply Qnot_le_lt. intros Hle.
    apply Qle_bool_iff in Hle. congruence.
  - intros H. destruct (Qle_bool b a) eqn:E; [|reflexivity].
    apply Qle_bool_iff in E. lra.
Qed.

Lemma ltb_ge (a b : Q) : JS.ltb a b = false ↔ b <= a.
Proof.
  unfold JS.ltb. rewrite negb_false_iff. apply Qle_bool_iff.
Qed.

Lemma leb_le (a b : Q) : JS.leb a b = true ↔ a <= b.
Proof. apply Qle_bool_iff. Qed.

(** Closed goals settled by evaluation. *)
Ltac by_computation :=
  vm_compute; first [ reflexivity | discriminate | (intro; discriminate) ].

(** ** Running computations *)

Lemma bind_inr {A B} (c : M A) (k : A → M B) w w' a :
  c w = (w', inr a) → bind c k w = k a w'.
Proof. unfold bind. now intros ->. Qed.

Lemma bind_inl {A B} (c : M A) (k : A → M B) w w' e :
  c w = (w', inl e) → bind c k w = (w', inl e).
Proof. unfold bind. now intros ->. Qed.

Lemma bind_gets {A B} (f : World → A) (k : A → M B) w :
  bind (gets f) k w = k (f w) w.
Proof. reflexivity. Qed.

Lemma bind_modify {B} (f : World → World) (k : unit → M B) w :
  bind (modify f) k w = k tt (f w).
Proof. reflexivity. Qed.

(** ** Loading never throws and leaves the state alone *)

Lemma _loadHistory_loaded (w : World) :
  _loadHistory w = (w, inr (loaded (localStorage w !! _getStorageKey w))).
Proof.
  unfold _loadHistory, try_catch, bind, gets, getItem, loaded, is_legacy. simpl.
  destruct (localStorage w !! _getStorageKey w) as [[raw|data]|]; simpl; try reflexivity.
  destruct (from_option truthy false (pending_forecasts data)); simpl; [reflexivity|].
  destruct (records data) as [[|firstRecord rest]|]; simpl; try reflexivity.
  destruct (typeof_number (forecast firstRecord)); reflexivity.
Qed.

Lemma _loadHistorySecondary_loaded (w : World) :
  _loadHistorySecondary w =
  (w, inr (loaded_secondary (localStorage w !! _getStorageKeySecondary w))).
Proof.
  unfold _loadHistorySecondary, try_catch, bind, gets, getItem, loaded_secondary. simpl.
  destruct (localStorage w !! _getStorageKeySecondary w) as [[raw|data]|]; reflexivity.
Qed.

(** ** Boolean tests of the code and the relations they decide *)

Lemma filter_bool_decide {A} (f : A → bool) (P : A → Prop) `{∀ x, Decision (P x)}
    (l : list A) :
  (∀ x, f x = true ↔ P x) → List.filter f l = filter P l.
Proof.
  intros Hf. induction l as [|x l IH]; [reflexivity|].
  simpl. rewrite filter_cons, IH.
  destruct (decide (P x)) as [HP|HP].
  - apply Hf in HP. now rewrite HP.
  - destruct (f x) eqn:E; [|reflexivity]. apply Hf in E. contradiction.
Qed.

Lemma cutoff_eq (cfg : Config) (now : Q) :
  now - history_days cfg * 24 * 60 * 60 * 1000 == now - retention cfg.
Proof. unfold retention. ring. Qed.

Lemma window_eq (cfg : Config) (now : Q) :
  now - refresh_interval cfg * 60 * 1000 * 0.8 == now - dedupWindow cfg.
Proof. unfold dedupWindow. ring. Qed.

Lemma prune_retained (cfg : Config) (now : Q) (recs : list ComparisonRecord) :
  List.filter (λ r, JS.ltb (now - history_days cfg * 24 * 60 * 60 * 1000) (timestamp r)) recs
  = retained cfg now recs.
Proof.
  apply filter_bool_decide. intros r.
  rewrite ltb_lt, cutoff_eq. reflexivity.
Qed.

Lemma some_recent (cfg : Config) (now : Q) (recs : list ComparisonRecord) :
  existsb (λ r, JS.ltb (now - refresh_interval cfg * 60 * 1000 * 0.8) (timestamp r)) recs = true
  ↔ has_recent cfg now recs.
Proof.
  unfold has_recent. rewrite existsb_exists, Exists_exists.
  split; intros (r & Hin & Hr); exists r; split.
  - apply list_elem_of_In, Hin.
  - apply ltb_lt in Hr. rewrite window_eq in Hr. exact Hr.
  - apply list_elem_of_In, Hin.
  - apply ltb_lt. rewrite window_eq. exact Hr.
Qed.

(** ** One append cycle *)

(** The append cycle on a log whose [records] array is there: the state
    after it differs in the storage slot only. *)
Lemma _recordComparison_run (now : Q) (w : World) (recs : list ComparisonRecord) :
  let history := loaded (localStorage w !! _getStorageKey w) in
  records history = Some recs →
  _recordComparison now w =
  (set_localStorage
     (<[_getStorageKey w :=
          Parsed {| pending_forecasts := pending_forecasts history;
                    records :=
                      Some (retained (config w) now
                              (push_comparison
                                 (bool_decide (has_recent (config w) now recs)) now
                                 (_currentForecast w) (_currentForecastLookahead w)
                                 (_currentActual w) recs));
                    last_updated := now |}]> (localStorage w)) w,
   inr tt).
Proof.
  intros history Hrecs. unfold _recordComparison.
  rewrite (bind_inr _ _ _ _ _ (_loadHistory_loaded w)).
  rewrite bind_gets. fold history. rewrite Hrecs. simpl.
  unfold bind at 1. simpl. rewrite !bind_gets.
  rewrite prune_retained.
  replace (existsb _ recs) with (bool_decide (has_recent (config w) now recs)).
  - reflexivity.
  - destruct (existsb _ recs) eqn:E.
    + apply bool_decide_eq_true. now apply some_recent.
    + apply bool_decide_eq_false. intros H. apply some_recent in H. congruence.
Qed.

(** It throws without touching the state when the stored object has no
    [records] array. *)
Lemma _recordComparison_throws (now : Q) (w : World) :
  records (loaded (localStorage w !! _getStorageKey w)) = None →
  ∃ e, _recordComparison now w = (w, inl e).
Proof.
  intros Hrecs. unfold _recordComparison.
  rewrite (bind_inr _ _ _ _ _ (_loadHistory_loaded w)).
  rewrite bind_gets, Hrecs. simpl. eexists. reflexivity.
Qed.

(** ** Unit normalizer *)

Section Normalizer.

Local Open Scope string_scope.

Lemma upper_ascii_idemp (c : ascii) : JS.upper_ascii (JS.upper_ascii c) = JS.upper_ascii c.
Proof. destruct c as [[] [] [] [] [] [] [] []]; reflexivity. Qed.

Lemma toUpperCase_idemp (s : string) : JS.toUpperCase (JS.toUpperCase s) = JS.toUpperCase s.
Proof.
  induction s as [|c s IH]; simpl; [reflexivity|].
  now rewrite upper_ascii_idemp, IH.
Qed.

(** The display unit is already in upper case. *)
Lemma _getDisplayUnit_upper (cfg : Config) (hass : option Hass) :
  JS.toUpperCase (_getDisplayUnit cfg hass) = _getDisplayUnit cfg hass.
Proof.
  unfold _getDisplayUnit.
  assert (Hloc : ∀ o : option string,
    JS.toUpperCase
      match o with
      | Some t => if JS.truthy_string t then (if String.eqb t "F" then "F" else "C") else "C"
      | None => "C"
      end =
      match o with
      | Some t => if JS.truthy_string t then (if String.eqb t "F" then "F" else "C") else "C"
      | None => "C"
      end).
  { intros [t|]; [|reflexivity].
    destruct (JS.truthy_string t); [|reflexivity].
    destruct (String.eqb t "F"); reflexivity. }
  destruct (unit_ cfg) as [u|]; [|apply Hloc].
  destruct (JS.truthy_string u); [apply toUpperCase_idemp|apply Hloc].
Qed.

Lemma strict_eq_true (a : option string) (b : string) :
  JS.strict_eq a b = true ↔ a = Some b.
Proof.
  destruct a as [s|]; simpl.
  - rewrite String.eqb_eq. split; congruence.
  - split; discriminate.
Qed.


Lemma normalize_c_to_f cfg hass value sourceUnit :
  denotes "C" sourceUnit → _getDisplayUnit cfg hass = "F" →
  _normalizeTemperature cfg hass value sourceUnit = (value * 9 / 5) + 32.
Proof.
  unfold _normalizeTemperature, denotes. intros HC HT.
  rewrite _getDisplayUnit_upper, HT.
  destruct (JS.strict_eq sourceUnit "F") eqn:EF.
  { apply strict_eq_true in EF. subst sourceUnit. discriminate HC. }
  rewrite HC. simpl.
  destruct (JS.strict_eq sourceUnit "C"); reflexivity.
Qed.

Lemma normalize_f_to_c cfg hass value sourceUnit :
  denotes "F" sourceUnit → _getDisplayUnit cfg hass = "C" →
  _normalizeTemperature cfg hass value sourceUnit = (value - 32) * 5 / 9.
Proof.
  unfold _normalizeTemperature, denotes. intros HF HT.
  rewrite _getDisplayUnit_upper, HT.
  destruct (JS.strict_eq sourceUnit "C") eqn:EC.
  { apply strict_eq_true in EC. subst sourceUnit. discriminate HF. }
  rewrite HF. simpl. rewrite !andb_false_r.
  destruct (JS.strict_eq sourceUnit "F"); reflexivity.
Qed.




End Normalizer.

Section NormalizerContract.

Local Open Scope string_scope.





(** C10. The unit normalizer is total in its source unit: with a null or
    undefined source unit it returns its input, and so reading a sensor
    whose state carries no [unit_of_measurement] ends normally with the
    parsed value as the current actual temperature. *)
Theorem normalize_without_source_unit :
  (∀ cfg hass value, _normalizeTemperature cfg hass value None = value)
  ∧ (∀ env w h sensorState value,
       hass w = Some h →
       states h !! temperature_sensor (config w) = Some sensorState →
       unit_of_measurement sensorState = None →
       parseFloat env (state sensorState) = Some value →
       _updateActualTemperature env w = (set_currentActual (Some value) w, inr tt)).
Proof.
  assert (Hpure : ∀ cfg hass value, _normalizeTemperature cfg hass value None = value).
  { intros cfg hass value. unfold _normalizeTemperature. reflexivity. }
  split; [exact Hpure|].
  intros env w h sensorState value Hh Hs Hu Hp.
  unfold _updateActualTemperature. rewrite !bind_gets, Hh, Hs, Hp.
  unfold modify, normalize. now rewrite Hu, Hpure.
Qed.

Lemma normalize_without_source_unit_witness :
  _updateActualTemperature (Station.env [] (HttpError 500)) (Station.fresh Sample.cfg)
  = (set_currentActual (Some 19) (Station.fresh Sample.cfg), inr tt).
Proof.
  apply (proj2 normalize_without_source_unit _ _ Sample.home
           {| state := "19"; unit_of_measurement := None |} 19); reflexivity.
Defined.

End NormalizerContract.

(** ** Statistics engine *)

Lemma fold_left_sum {A} (g : A → Q) (l : list A) (a : Q) :
  fold_left (λ sum r, sum + g r) l a == a + sum (List.map g l).
Proof.
  revert a. induction l as [|x l IH]; intros a; simpl.
  - ring.
  - rewrite IH. ring.
Qed.

Lemma sumAbsError_sum (recs : list ComparisonRecord) :
  sumAbsError recs == sum (abs_errors recs).
Proof.
  unfold sumAbsError, abs_errors.
  rewrite (fold_left_sum (λ r, Qabs (delta r))). ring.
Qed.

Lemma sumDelta_sum (recs : list ComparisonRecord) :
  sumDelta recs == sum (errors recs).
Proof.
  unfold sumDelta, errors. rewrite (fold_left_sum delta). ring.
Qed.

Lemma len_pos {A} (l : list A) : l ≠ [] → 0 < len l.
Proof.
  intros Hl. unfold len, Qlt. simpl.
  destruct l; [contradiction|]. simpl length. lia.
Qed.

Lemma len_map {A B} (f : A → B) (l : list A) : len (List.map f l) = len l.
Proof. unfold len. now rewrite length_map. Qed.

Lemma accurate_count_filter (recs : list ComparisonRecord) :
  length (List.filter (λ r, JS.leb (Qabs (delta r)) 2) recs) = accurate_count recs.
Proof.
  induction recs as [|r recs IH]; [reflexivity|]. simpl.
  destruct (decide (Qabs (delta r) <= 2)) as [H|H].
  - apply leb_le in H. rewrite H. simpl. now rewrite IH.
  - destruct (JS.leb (Qabs (delta r)) 2) eqn:E.
    + apply leb_le in E. contradiction.
    + exact IH.
Qed.



(** The statistics cycle on a log whose [records] array is there. *)
Lemma _calculateStatistics_run (now : Q) (w : World) (history : HistoryLog)
    (recs : list ComparisonRecord) :
  outcome _loadHistory w = inr history →
  records history = Some recs →
  _calculateStatistics now w = (set_statistics (Some (statistics_of recs now)) w, inr tt).
Proof.
  unfold outcome. rewrite _loadHistory_loaded. simpl. intros [= <-] Hrecs.
  unfold _calculateStatistics.
  rewrite (bind_inr _ _ _ _ _ (_loadHistory_loaded w)), Hrecs.
  reflexivity.
Qed.

Lemma mae_mean (recs : list ComparisonRecord) :
  sumAbsError recs / len recs == mean (abs_errors recs).
Proof.
  unfold mean. rewrite sumAbsError_sum.
  replace (len (abs_errors recs)) with (len recs); [reflexivity|].
  unfold abs_errors. now rewrite len_map.
Qed.

Lemma bias_mean (recs : list ComparisonRecord) :
  sumDelta recs / len recs == mean (errors recs).
Proof.
  unfold mean. rewrite sumDelta_sum.
  replace (len (errors recs)) with (len recs); [reflexivity|].
  unfold errors. now rewrite len_map.
Qed.

(** The statistics of a non-empty list of records, branch by branch. *)
Lemma statistics_of_nonempty (recs : list ComparisonRecord) (now : Q) :
  recs ≠ [] →
  statistics_of recs now =
  let recentRecords :=
    List.filter (λ r, JS.ltb (now - 24 * 60 * 60 * 1000) (timestamp r)) recs in
  let previousRecords :=
    List.filter (λ r, JS.ltb (now - 48 * 60 * 60 * 1000) (timestamp r)
                      && JS.leb (timestamp r) (now - 24 * 60 * 60 * 1000)) recs in
  {| mae := Some (sumAbsError recs / len recs);
     bias := Some (sumDelta recs / len recs);
     trend :=
       if (2 <=? length recentRecords)%nat && (2 <=? length previousRecords)%nat then
         if JS.ltb (sumAbsError recentRecords / len recentRecords
                    - sumAbsError previousRecords / len previousRecords) (-0.5)
         then improving
         else if JS.ltb 0.5 (sumAbsError recentRecords / len recentRecords
                             - sumAbsError previousRecords / len previousRecords)
         then degrading
         else stable
       else stable;
     accuracy :=
       Some (len (List.filter (λ r, JS.leb (Qabs (delta r)) 2) recs) / len recs * 100);
     recordCount := length recs;
     recentRecords := slice_last 168 recs |}.
Proof. destruct recs; [contradiction | reflexivity]. Qed.


(** C1. On a non-empty list of loaded records, the statistics computation
    yields [mae], the arithmetic mean of [|delta|]; [bias], the arithmetic
    mean of [delta], sign kept; and [accuracy], 100 times the number of
    records with [|delta| <= 2] divided by the number of records. *)
Theorem statistics_are_means (now : Q) (w : World) (history : HistoryLog)
    (recs : list ComparisonRecord) :
  outcome _loadHistory w = inr history →
  records history = Some recs →
  recs ≠ [] →
  ∃ s m b acc,
    _statistics (exec (_calculateStatistics now) w) = Some s
    ∧ mae s = Some m ∧ m == mean (abs_errors recs)
    ∧ bias s = Some b ∧ b == mean (errors recs)
    ∧ accuracy s = Some acc
    ∧ acc == 100 * inject_Z (Z.of_nat (accurate_count recs)) / len recs.
Proof.
  intros Hload Hrecs Hne.
  unfold exec. rewrite (_calculateStatistics_run now w history recs Hload Hrecs).
  rewrite (statistics_of_nonempty recs now Hne). cbv zeta.
  eexists _, _, _, _. cbn [fst set_statistics _statistics mae bias accuracy].
  split; [reflexivity|].
  split; [reflexivity|]. split; [apply mae_mean|].
  split; [reflexivity|]. split; [apply bias_mean|].
  split; [reflexivity|].
  unfold len at 1. rewrite accurate_count_filter.
  pose proof (len_pos recs Hne) as Hpos.
  field. intros H0. rewrite H0 in Hpos. apply (Qlt_irrefl 0), Hpos.
Qed.

Lemma statistics_are_means_witness :
  ∃ s m b acc,
    _statistics (exec (_calculateStatistics Trend.now) Trend.world) = Some s
    ∧ mae s = Some m ∧ m == mean (abs_errors [Trend.p1; Trend.p2; Trend.c1; Trend.c2])
    ∧ bias s = Some b ∧ b == mean (errors [Trend.p1; Trend.p2; Trend.c1; Trend.c2])
    ∧ accuracy s = Some acc
    ∧ acc == 100 * inject_Z (Z.of_nat
                               (accurate_count [Trend.p1; Trend.p2; Trend.c1; Trend.c2]))
             / len [Trend.p1; Trend.p2; Trend.c1; Trend.c2].
Proof.
  apply (statistics_are_means Trend.now Trend.world Trend.log).
  - reflexivity.
  - reflexivity.
  - discriminate.
Defined.



(** ** Station adapter: the choice of the current hourly entry *)

(** One turn of the scan either keeps the selection, the entry at hand
    being no closer, or moves to the entry at hand, strictly closer. *)
Lemma closest_step_cases (target : Q) (sel : HourlyEntry) (d : Q) (h : HourlyEntry) :
  (closest_step target (sel, Some d) h = (sel, Some d)
   ∧ ∀ t, time h = Some t → JS.truthy_number t = true → d <= Qabs (t - target))
  ∨ (∃ t, time h = Some t ∧ Qabs (t - target) < d
          ∧ closest_step target (sel, Some d) h = (h, Some (Qabs (t - target)))).
Proof.
  unfold closest_step.
  destruct (time h) as [t|]; [|left; split; [reflexivity|discriminate]].
  destruct (JS.truthy_number t) eqn:Htr.
  - cbn [snd closer from_option].
    destruct (JS.ltb (Qabs (t - target)) d) eqn:Hlt.
    + right. exists t. apply ltb_lt in Hlt. auto.
    + left. split; [reflexivity|]. intros t1 [= <-] _. now apply ltb_ge.
  - left. split; [reflexivity|]. intros t1 [= <-]. congruence.
Qed.

(** The scan, started on an entry that has a timestamp, ends on an entry
    that has one, at least as close to the target as the start and as every
    scanned entry with a non-zero timestamp. *)
Lemma closest_scan_minimizes (target : Q) (l : list HourlyEntry) :
  ∀ (sel : HourlyEntry) (ts : Q),
    time sel = Some ts →
    let r := fold_left (closest_step target) l (sel, Some (Qabs (ts - target))) in
    (fst r = sel ∨ fst r ∈ l)
    ∧ ∃ ts', time (fst r) = Some ts'
             ∧ Qabs (ts' - target) <= Qabs (ts - target)
             ∧ ∀ e t, e ∈ l → time e = Some t → JS.truthy_number t = true →
                      Qabs (ts' - target) <= Qabs (t - target).
Proof.
  induction l as [|h l IH]; intros sel ts Hsel; cbv zeta.
  - simpl. split; [now left|]. exists ts. split; [exact Hsel|].
    split; [apply Qle_refl|]. intros e t He. inversion He.
  - cbn [fold_left].
    destruct (closest_step_cases target sel (Qabs (ts - target)) h)
      as [[-> Hh] | (t & Hth & Hlt & ->)].
    + destruct (IH sel ts Hsel) as (Hin & ts' & Hts' & Hle & Hmin).
      split; [destruct Hin; [now left | right; now apply list_elem_of_further]|].
      exists ts'. split; [exact Hts'|]. split; [exact Hle|].
      intros e t He Ht Htruthy. apply elem_of_cons in He as [->|He].
      * eapply Qle_trans; [exact Hle|]. now apply Hh.
      * now apply (Hmin e).
    + destruct (IH h t Hth) as (Hin & ts' & Hts' & Hle & Hmin).
      split; [right; destruct Hin as [->|Hin];
              [apply list_elem_of_here | now apply list_elem_of_further]|].
      exists ts'. split; [exact Hts'|].
      split; [eapply Qle_trans; [exact Hle|]; apply Qlt_le_weak, Hlt|].
      intros e t1 He Ht1 Htruthy. apply elem_of_cons in He as [->|He].
      * rewrite Hth in Ht1. injection Ht1 as <-. exact Hle.
      * now apply (Hmin e).
Qed.

(** When the first entry of the array has a timestamp, the entry selected
    as current has one too and no entry with a non-zero timestamp is closer
    to the target. *)
Lemma closest_hourly_minimizes (target : Q) (first : HourlyEntry)
    (rest : list HourlyEntry) (t0 : Q) :
  time first = Some t0 →
  closest_hourly target first rest ∈ first :: rest
  ∧ ∃ ts, time (closest_hourly target first rest) = Some ts
          ∧ ∀ e t, e ∈ first :: rest → time e = Some t → JS.truthy_number t = true →
                   Qabs (ts - target) <= Qabs (t - target).
Proof.
  intros Hfirst. unfold closest_hourly, abs_distance. rewrite Hfirst.
  cbn [fmap option_fmap option_map].
  destruct (closest_scan_minimizes target (first :: rest) first t0 Hfirst)
    as (Hin & ts & Hts & _ & Hmin).
  split.
  - destruct Hin as [->|Hin]; [apply list_elem_of_here | exact Hin].
  - exists ts. split; [exact Hts | exact Hmin].
Qed.

(** C7. The entry selected as current is not always one whose timestamp is
    closest to now.  In card version 1.4.0 the scan is seeded with the first
    entry's distance: when that entry has no [time] the distance is NaN, no
    entry compares as closer, and the first entry is kept although the
    second is for this very second; the adapter then reports 50 where the
    closest entry says 60.  In the 1.2.0 adapter the first entry within an
    hour wins: at ten to the hour, the entry 3000 s back is taken although
    the next one is 600 s ahead. *)
Theorem current_entry_not_closest :
  closest_hourly (unix_seconds Station.now) Station.untimed [Station.on_time]
  = Station.untimed
  ∧ _currentForecast
      (exec (_fetchFromTempest (Station.env [Station.untimed; Station.on_time]
                                  (HttpError 500)))
         (Station.fresh Station.cfg))
    = Some 50
  ∧ V120.currentHourForecast (unix_seconds Station.now)
      Station.running_hour [Station.next_hour]
    = Station.running_hour
  ∧ Qabs (1700000600 - unix_seconds Station.now)
    < Qabs (1699997000 - unix_seconds Station.now).
Proof.
  split; [|split; [|split]]; by_computation.
Qed.

(** ** History store: deduplication, pruning, migration *)

Lemma stored_records_insert (key : string) (data : HistoryLog)
    (store : gmap string Stored) (w : World) :
  stored_records key (set_localStorage (<[key := Parsed data]> store) w)
  = default [] (records data).
Proof. unfold stored_records. simpl. now rewrite lookup_insert_eq. Qed.

Lemma retained_spec (cfg : Config) (now : Q) (recs : list ComparisonRecord) r :
  r ∈ retained cfg now recs ↔ r ∈ recs ∧ now - retention cfg < timestamp r.
Proof. unfold retained. rewrite list_elem_of_filter. tauto. Qed.

Lemma retained_app (cfg : Config) (now : Q) (l1 l2 : list ComparisonRecord) :
  retained cfg now (l1 ++ l2) = retained cfg now l1 ++ retained cfg now l2.
Proof. apply filter_app. Qed.

(** Pruning at a later instant subsumes pruning at an earlier one. *)
Lemma retained_retained (cfg : Config) (now1 now2 : Q) (recs : list ComparisonRecord) :
  now1 <= now2 →
  retained cfg now2 (retained cfg now1 recs) = retained cfg now2 recs.
Proof.
  intros Hle. unfold retained.
  induction recs as [|r recs IH]; [reflexivity|].
  rewrite !filter_cons.
  destruct (decide (now1 - retention cfg < timestamp r)) as [H1|H1];
    destruct (decide (now2 - retention cfg < timestamp r)) as [H2|H2].
  - rewrite filter_cons. rewrite decide_True by exact H2. now rewrite IH.
  - rewrite filter_cons. rewrite decide_False by exact H2. exact IH.
  - exfalso. apply H1. lra.
  - exact IH.
Qed.

Lemma Forall_retained (P : ComparisonRecord → Prop) cfg now recs :
  Forall P recs → Forall P (retained cfg now recs).
Proof.
  rewrite !Forall_forall. intros H r Hr. apply retained_spec in Hr. now apply H.
Qed.

(** A log in the current format is loaded as it is. *)
Lemma loaded_current_format (data : HistoryLog) :
  current_format data → loaded (Some (Parsed data)) = data.
Proof.
  intros (Hp & recs & Hr & Hplain). unfold loaded, is_legacy.
  rewrite Hp, Hr. simpl.
  destruct recs as [|r rest]; [reflexivity|].
  apply Forall_cons in Hplain as [Hplain _]. now rewrite Hplain.
Qed.

(** C4. After every append cycle, whether the append was made or skipped
    (a recent record, a missing forecast or actual value) and whatever the
    stored payload was, no stored record has a timestamp below
    [now - retentionDays * 86400000]. *)
Theorem prune_after_every_append_cycle (now : Q) (w : World) :
  Forall (λ r, ¬ timestamp r < now - history_days (config w) * 86400000)
    (stored_records (_getStorageKey w) (exec (_recordComparison now) w)).
Proof.
  destruct (records (loaded (localStorage w !! _getStorageKey w))) as [recs|] eqn:Hrecs.
  - unfold exec. rewrite (_recordComparison_run now w recs Hrecs). simpl.
    rewrite stored_records_insert. simpl.
    apply Forall_forall. intros r Hr.
    apply retained_spec in Hr as [_ Hr]. unfold retention in Hr.
    apply Qle_not_lt, Qlt_le_weak, Hr.
  - destruct (_recordComparison_throws now w Hrecs) as [e He].
    unfold exec. rewrite He. simpl.
    unfold stored_records.
    revert Hrecs. unfold loaded.
    destruct (localStorage w !! _getStorageKey w) as [[raw|data]|]; try constructor.
    destruct (is_legacy data); [discriminate|].
    intros ->. constructor.
Qed.

(** C3, amended.  An append is skipped whenever some stored record is newer
    than [now - dedupWindow]: the cycle then only prunes.  Consequently, on a
    log in the current format with no such record at [now1], with forecast
    and actual in hand and a dedup window no longer than the retention
    window, two append calls at [now1 <= now2 < now1 + dedupWindow] add
    exactly one record, that of the first call: the second call appends
    nothing and only prunes what is older than its own cutoff. *)
Theorem dedup_window_suppresses_second_append (w : World) :
  let key := _getStorageKey w in
  let cfg := config w in
  let history := loaded (localStorage w !! key) in
  (∀ now recs,
      records history = Some recs →
      has_recent cfg now recs →
      stored_records key (exec (_recordComparison now) w) = retained cfg now recs) ∧
  (∀ now1 now2 recs f a,
      current_format history →
      records history = Some recs →
      ¬ has_recent cfg now1 recs →
      _currentForecast w = Some f →
      _currentActual w = Some a →
      now1 <= now2 → now2 < now1 + dedupWindow cfg →
      dedupWindow cfg <= retention cfg →
      stored_records key (exec (_recordComparison now2) (exec (_recordComparison now1) w))
      = retained cfg now2 recs
        ++ [comparison_at now1 f (_currentForecastLookahead w) a]).
Proof.
  cbv zeta. split.
  - intros now recs Hrecs Hrecent.
    unfold exec. rewrite (_recordComparison_run now w recs Hrecs). simpl.
    rewrite stored_records_insert. simpl.
    now rewrite bool_decide_eq_true_2.
  - intros now1 now2 recs f a Hfmt Hrecs Hnone Hf Ha Hle Hlt Hwin.
    destruct Hfmt as (Hpend & recs' & Hrecs' & Hplain).
    rewrite Hrecs in Hrecs'. injection Hrecs' as <-.
    unfold exec at 2. rewrite (_recordComparison_run now1 w recs Hrecs). simpl.
    rewrite bool_decide_eq_false_2 by exact Hnone.
    rewrite Hf, Ha. simpl.
    fold (comparison_at now1 f (_currentForecastLookahead w) a).
    set (new := comparison_at now1 f (_currentForecastLookahead w) a).
    set (log1 := {| pending_forecasts := _; records := _; last_updated := now1 |}).
    set (w1 := set_localStorage _ w).
    assert (Hkeep1 : retained (config w) now1 (recs ++ [new])
                     = retained (config w) now1 recs ++ [new]).
    { rewrite retained_app. f_equal. unfold retained.
      rewrite filter_cons, decide_True; [reflexivity|]. simpl. lra. }
    assert (Hload1 : loaded (localStorage w1 !! _getStorageKey w1) = log1).
    { unfold w1. simpl. change (_getStorageKey (set_localStorage _ w)) with (_getStorageKey w).
      rewrite lookup_insert_eq. apply loaded_current_format.
      split; [exact Hpend|].
      eexists. split; [reflexivity|].
      rewrite Hkeep1. apply Forall_app. split.
      - apply Forall_retained, Hplain.
      - repeat constructor. }
    assert (Hrecs1 : records (loaded (localStorage w1 !! _getStorageKey w1))
                     = Some (retained (config w) now1 recs ++ [new])).
    { rewrite Hload1. unfold log1. simpl. now rewrite Hkeep1. }
    unfold exec. rewrite (_recordComparison_run now2 w1 _ Hrecs1). simpl.
    change (_getStorageKey w1) with (_getStorageKey w).
    rewrite stored_records_insert. simpl.
    change (config w1) with (config w).
    rewrite bool_decide_eq_true_2.
    + simpl. rewrite retained_app, retained_retained by exact Hle.
      f_equal. unfold retained.
      rewrite filter_cons, decide_True; [reflexivity|]. simpl. lra.
    + unfold has_recent. apply Exists_app. right. constructor. simpl. lra.
Qed.

(** C5, amended.  A stored payload whose [pending_forecasts] field is
    truthy, or whose records list is non-empty with a first record whose
    forecast is not a plain number, is loaded as the empty log. *)
Theorem load_resets_legacy_format (w : World) (data : HistoryLog) :
  localStorage w !! _getStorageKey w = Some (Parsed data) →
  (∃ v, pending_forecasts data = Some v ∧ truthy v = true)
  ∨ (∃ firstRecord rest,
        records data = Some (firstRecord :: rest)
        ∧ typeof_number (forecast firstRecord) = false) →
  _loadHistory w = (w, inr {| pending_forecasts := None; records := Some []; last_updated := 0 |}).
Proof.
  intros Hslot Hlegacy. rewrite _loadHistory_loaded, Hslot.
  unfold loaded, is_legacy.
  destruct Hlegacy as [(v & Hv & Htruthy) | (r & rest & Hr & Hnum)].
  - rewrite Hv. simpl. rewrite Htruthy. reflexivity.
  - rewrite Hr, Hnum. simpl. rewrite orb_true_r. reflexivity.
Qed.

(** C3, as stated, fails: with a record 1 s old in the log, two appends 1 s
    apart (well within the 48 min window), forecast and actual in hand, add
    no record at all. *)
Lemma dedup_counterexample_recent_record :
  let w := Sample.card Sample.cfg {[ Sample.key := Parsed Sample.log0 ]} in
  let w2 := exec (_recordComparison Sample.now2) (exec (_recordComparison Sample.now1) w) in
  Sample.now2 - Sample.now1 <= dedupWindow Sample.cfg
  ∧ stored_records (_getStorageKey w) w = [Sample.r0]
  ∧ stored_records (_getStorageKey w) w2 = [Sample.r0]
  ∧ length (stored_records (_getStorageKey w) w2)
    ≠ S (length (stored_records (_getStorageKey w) w)).
Proof.
  cbv zeta. repeat split; by_computation.
Qed.

Lemma dedup_window_suppresses_second_append_witness :
  let w := Sample.card Sample.cfg {[ Sample.key := Parsed Sample.log0 ]} in
  stored_records (_getStorageKey w)
    (exec (_recordComparison 13001000) (exec (_recordComparison 13000000) w))
  = retained Sample.cfg 13001000 [Sample.r0] ++ [comparison_at 13000000 20 None 19].
Proof.
  cbv zeta.
  apply (proj2 (dedup_window_suppresses_second_append
                  (Sample.card Sample.cfg {[ Sample.key := Parsed Sample.log0 ]}))
           13000000 13001000 [Sample.r0] 20 19).
  - split; [reflexivity|]. exists [Sample.r0]. split; [reflexivity|].
    repeat constructor.
  - reflexivity.
  - apply (bool_decide_eq_false_1 (has_recent _ _ _)). by_computation.
  - reflexivity.
  - reflexivity.
  - by_computation.
  - by_computation.
  - by_computation.
Defined.

(** C5, as stated, fails: a payload that contains a [pending_forecasts]
    field holding [null] is loaded as it is, records included. *)
Lemma load_keeps_null_pending_forecasts :
  let w := Sample.card Sample.cfg {[ Sample.key := Parsed Sample.log_null_pending ]} in
  localStorage w !! _getStorageKey w = Some (Parsed Sample.log_null_pending)
  ∧ pending_forecasts Sample.log_null_pending = Some JNull
  ∧ outcome _loadHistory w = inr Sample.log_null_pending
  ∧ records Sample.log_null_pending = Some [Sample.r0].
Proof.
  cbv zeta. repeat split; by_computation.
Qed.

Lemma load_resets_legacy_format_witness :
  let w := Sample.card Sample.cfg {[ Sample.key := Parsed Sample.log_legacy ]} in
  _loadHistory w = (w, inr {| pending_forecasts := None; records := Some []; last_updated := 0 |}).
Proof.
  cbv zeta.
  apply (load_resets_legacy_format _ Sample.log_legacy).
  - reflexivity.
  - left. exists (JArray "[{}]"). split; reflexivity.
Defined.

(** ** Refresh cycle: what the adapters touch *)

(** Case analysis on the innermost scrutinee, until none is left. *)
Ltac run_cases :=
  repeat match goal with
         | |- context [match ?x with _ => _ end] =>
             lazymatch x with
             | context [match _ with _ => _ end] => fail
             | _ => destruct x eqn:?
             end
         end.

Lemma _fetchFromTempest_frame (env : Env) (w : World) :
  agrees_but_primary w (exec (_fetchFromTempest env) w).
Proof.
  destruct w. unfold agrees_but_primary, exec, _fetchFromTempest, bind, gets, when,
    throw, modify, ret.
  cbn [config fst snd].
  run_cases; reflexivity.
Qed.

Lemma _fetchFromOpenMeteo_frame (env : Env) (w : World) :
  agrees_but_primary w (exec (_fetchFromOpenMeteo env) w).
Proof.
  destruct w. unfold agrees_but_primary, exec, _fetchFromOpenMeteo, bind, gets, when,
    throw, modify, ret.
  cbn [config fst snd].
  run_cases; reflexivity.
Qed.

(** Whether an adapter throws, and what, is settled by the configuration
    and the cycle's inputs. *)
Lemma _fetchFromTempest_outcome (env : Env) (w1 w2 : World) :
  config w1 = config w2 →
  outcome (_fetchFromTempest env) w1 = outcome (_fetchFromTempest env) w2.
Proof.
  destruct w1, w2. cbn [config]. intros ->.
  unfold outcome, _fetchFromTempest, bind, gets, when, throw, modify, ret.
  cbn [config fst snd].
  run_cases; reflexivity.
Qed.

Lemma _fetchFromOpenMeteo_outcome (env : Env) (w1 w2 : World) :
  config w1 = config w2 →
  outcome (_fetchFromOpenMeteo env) w1 = outcome (_fetchFromOpenMeteo env) w2.
Proof.
  destruct w1, w2. cbn [config]. intros ->.
  unfold outcome, _fetchFromOpenMeteo, bind, gets, when, throw, modify, ret.
  cbn [config fst snd].
  run_cases; reflexivity.
Qed.

Lemma primary_adapter_outcome (env : Env) (cfg : Config) (w1 w2 : World) :
  config w1 = config w2 →
  outcome (primary_adapter env cfg) w1 = outcome (primary_adapter env cfg) w2.
Proof.
  unfold primary_adapter. destruct (hasTempest cfg).
  - apply _fetchFromTempest_outcome.
  - apply _fetchFromOpenMeteo_outcome.
Qed.

Lemma primary_adapter_frame (env : Env) (cfg : Config) (w : World) :
  agrees_but_primary w (exec (primary_adapter env cfg) w).
Proof.
  unfold primary_adapter. destruct (hasTempest cfg).
  - apply _fetchFromTempest_frame.
  - apply _fetchFromOpenMeteo_frame.
Qed.

(** A station fetch that returns has set the current forecast. *)
Lemma _fetchFromTempest_sets_forecast (env : Env) (w : World) :
  outcome (_fetchFromTempest env) w = inr tt →
  is_Some (_currentForecast (exec (_fetchFromTempest env) w)).
Proof.
  destruct w.
  unfold outcome, exec, _fetchFromTempest, bind, gets, when, throw, modify, ret.
  cbn [config fst snd].
  run_cases; cbn; intros H; try discriminate H; eexists; reflexivity.
Qed.

(** Every failure of the secondary fetch is swallowed: the fetch returns,
    having cleared the three secondary fields. *)
Lemma secondary_failure_swallowed (env : Env) (w : World) :
  secondary_fails env (config w) →
  _fetchFromOpenMeteoSecondary env w = (exec clear_secondary w, inr tt).
Proof.
  intros Hfail. destruct w.
  unfold _fetchFromOpenMeteoSecondary, clear_secondary, exec, try_catch, bind, gets,
    throw, modify, ret.
  cbn [config fst snd] in *.
  destruct Hfail as [msg H | st H | msg H | data H Hcur | data t h e H Hcur Hla Hh Hthrow];
    rewrite H; try reflexivity.
  - rewrite Hcur. reflexivity.
  - rewrite Hcur, Hla, Hh, Hthrow. reflexivity.
Qed.

Lemma length_append (s1 s2 : string) :
  String.length (s1 +:+ s2) = (String.length s1 + String.length s2)%nat.
Proof. induction s1 as [|c s1 IH]; simpl; [reflexivity | now rewrite IH]. Qed.

Lemma storage_keys_differ (w : World) : _getStorageKey w ≠ _getStorageKeySecondary w.
Proof.
  unfold _getStorageKey, _getStorageKeySecondary. intros H.
  apply (f_equal String.length) in H.
  rewrite !length_append in H. simpl in H. lia.
Qed.

Lemma run_eq {A} (c : M A) (w : World) : c w = (exec c w, outcome c w).
Proof. unfold exec, outcome. now destruct (c w). Qed.

Lemma _updateActualTemperature_run (env : Env) (w : World) (h : Hass)
    (sensorState : SensorState) (value : Q) :
  hass w = Some h →
  states h !! temperature_sensor (config w) = Some sensorState →
  parseFloat env (state sensorState) = Some value →
  _updateActualTemperature env w =
  (set_currentActual (Some (normalize w value (unit_of_measurement sensorState))) w,
   inr tt).
Proof.
  intros Hh Hs Hp. unfold _updateActualTemperature.
  rewrite !bind_gets, Hh, Hs, Hp. reflexivity.
Qed.

(** The fields a frame-respecting adapter leaves alone. *)
Lemma agrees_but_primary_fields (w w' : World) :
  agrees_but_primary w w' →
  hass w' = hass w ∧ config w' = config w
  ∧ _currentActual w' = _currentActual w
  ∧ localStorage w' = localStorage w
  ∧ _currentForecastSecondary w' = _currentForecastSecondary w
  ∧ _currentForecastSecondaryLookahead w' = _currentForecastSecondaryLookahead w
  ∧ _futureForecastSecondary w' = _futureForecastSecondary w
  ∧ _error w' = _error w.
Proof. intros ->. repeat split. Qed.

(** The fetch step of the cycle, when the primary adapter throws: the
    exception leaves the step, the secondary adapter is not run. *)
Lemma fetch_step_throws (env : Env) (w : World) (e : exn) :
  outcome (primary_adapter env (config w)) w = inl e →
  (if _isComparisonMode w
   then (_fetchFromTempest env ;; _fetchFromOpenMeteoSecondary env)
   else if hasTempest (config w) then _fetchFromTempest env
        else _fetchFromOpenMeteo env) w
  = (exec (primary_adapter env (config w)) w, inl e).
Proof.
  unfold primary_adapter, _isComparisonMode.
  destruct (hasTempest (config w)); rewrite ?andb_false_r, ?andb_true_r; intros He.
  - destruct (hasCoordinates (config w)).
    + apply bind_inl. rewrite run_eq. now rewrite He.
    + rewrite run_eq. now rewrite He.
  - rewrite run_eq. now rewrite He.
Qed.

(** C9. When the sensor was read and the fetch of the primary forecast then
    fails, the cycle ends with the error recorded and the current actual
    temperature still holding the value read from the sensor at its start. *)
Theorem actual_survives_failed_fetch (env : Env) (w : World) (h : Hass)
    (sensorState : SensorState) (value : Q) (e : exn) :
  hass w = Some h →
  states h !! temperature_sensor (config w) = Some sensorState →
  parseFloat env (state sensorState) = Some value →
  outcome (primary_adapter env (config w)) w = inl e →
  let w' := exec (_fetchData env) w in
  _currentActual w' = Some (normalize w value (unit_of_measurement sensorState))
  ∧ _error w' = Some (message e)
  ∧ _loading w' = false.
Proof.
  intros Hh Hs Hp Hfail. cbv zeta.
  unfold exec, _fetchData.
  rewrite bind_gets, Hh, bool_decide_eq_true_2 by eauto. cbn [negb].
  rewrite !bind_modify.
  set (w0 := set_lastFetch (now_fetchData env) (set_error None (set_loading true w))).
  set (actual := normalize w value (unit_of_measurement sensorState)).
  assert (Hupd : _updateActualTemperature env w0 = (set_currentActual (Some actual) w0, inr tt)).
  { apply (_updateActualTemperature_run env w0 h sensorState value); assumption. }
  set (w1 := set_currentActual (Some actual) w0) in *.
  assert (Hfail1 : outcome (primary_adapter env (config w1)) w1 = inl e).
  { rewrite <- Hfail. apply primary_adapter_outcome. reflexivity. }
  pose proof (fetch_step_throws env w1 e Hfail1) as Hstep.
  pose proof (primary_adapter_frame env (config w1) w1) as Hframe.
  apply agrees_but_primary_fields in Hframe as (_ & _ & Hact & _).
  set (w2 := exec (primary_adapter env (config w1)) w1) in *.
  unfold try_finally, try_catch.
  rewrite (bind_inr _ _ _ _ _ Hupd), !bind_gets.
  rewrite (bind_inl _ _ _ _ _ Hstep).
  cbn. rewrite Hact. repeat split.
Qed.

Lemma actual_survives_failed_fetch_witness :
  let w' := exec (_fetchData (Station.env [] (HttpError 500))) (Station.fresh Station.cfg) in
  _currentActual w' = Some 19
  ∧ _error w' = Some "Tempest API: No hourly forecast data available"%string
  ∧ _loading w' = false.
Proof.
  apply (actual_survives_failed_fetch (Station.env [] (HttpError 500))
           (Station.fresh Station.cfg) Sample.home
           {| state := "19"; unit_of_measurement := None |} 19
           (Throw "Tempest API: No hourly forecast data available"));
    reflexivity.
Defined.

Lemma _calculateStatisticsSecondary_run (now : Q) (w : World)
    (recs : list ComparisonRecord) :
  records (loaded_secondary (localStorage w !! _getStorageKeySecondary w)) = Some recs →
  _calculateStatisticsSecondary now w
  = (set_statisticsSecondary (Some (statistics_of recs now)) w, inr tt).
Proof.
  intros Hrecs. unfold _calculateStatisticsSecondary.
  rewrite (bind_inr _ _ _ _ _ (_loadHistorySecondary_loaded w)), Hrecs.
  reflexivity.
Qed.

Lemma push_comparison_plain (b : bool) (now : Q) (f la a : option Q)
    (recs : list ComparisonRecord) :
  Forall (λ r, typeof_number (forecast r) = true) recs →
  Forall (λ r, typeof_number (forecast r) = true) (push_comparison b now f la a recs).
Proof.
  intros H. unfold push_comparison.
  destruct b, f, a; try exact H.
  apply Forall_app. split; [exact H|]. repeat constructor.
Qed.

(** C8. In comparison mode, with the sensor read, the primary fetch
    returned and the two stored logs in shape, a secondary fetch that fails
    (HTTP error, missing current temperature, or a thrown exception) does
    not fail the cycle: no error is recorded, the three secondary fields are
    null, null and empty, the primary comparison goes through the append
    cycle, and the statistics of both logs are recomputed. *)
Theorem secondary_failure_does_not_fail_cycle (env : Env) (w : World) (h : Hass)
    (sensorState : SensorState) (value : Q) (recs recs2 : list ComparisonRecord) :
  _isComparisonMode w = true →
  hass w = Some h →
  states h !! temperature_sensor (config w) = Some sensorState →
  parseFloat env (state sensorState) = Some value →
  outcome (_fetchFromTempest env) w = inr tt →
  secondary_fails env (config w) →
  current_format (loaded (localStorage w !! _getStorageKey w)) →
  records (loaded (localStorage w !! _getStorageKey w)) = Some recs →
  records (loaded_secondary (localStorage w !! _getStorageKeySecondary w)) = Some recs2 →
  let actual := normalize w value (unit_of_measurement sensorState) in
  let w' := exec (_fetchData env) w in
  _error w' = None
  ∧ _loading w' = false
  ∧ _currentForecastSecondary w' = None
  ∧ _currentForecastSecondaryLookahead w' = None
  ∧ _futureForecastSecondary w' = []
  ∧ _currentActual w' = Some actual
  ∧ (∃ f, _currentForecast w' = Some f
          ∧ stored_records (_getStorageKey w) w'
            = retained (config w) (now_record env)
                (push_comparison
                   (bool_decide (has_recent (config w) (now_record env) recs))
                   (now_record env) (Some f) (_currentForecastLookahead w')
                   (Some actual) recs))
  ∧ _statistics w'
    = Some (statistics_of (stored_records (_getStorageKey w) w') (now_statistics env))
  ∧ _statisticsSecondary w'
    = Some (statistics_of recs2 (now_statisticsSecondary env)).
Proof.
  intros Hmode Hh Hs Hp Hprim Hsec Hfmt Hrecs Hrecs2 actual w'.
  set (w0 := set_lastFetch (now_fetchData env) (set_error None (set_loading true w))).
  assert (Hupd : _updateActualTemperature env w0 = (set_currentActual (Some actual) w0, inr tt)).
  { apply (_updateActualTemperature_run env w0 h sensorState value); assumption. }
  set (w1 := set_currentActual (Some actual) w0) in *.
  (* the primary fetch *)
  assert (Hprim1 : outcome (_fetchFromTempest env) w1 = inr tt).
  { rewrite <- Hprim. apply _fetchFromTempest_outcome. reflexivity. }
  pose proof (_fetchFromTempest_sets_forecast env w1 Hprim1) as [f Hf].
  pose proof (_fetchFromTempest_frame env w1) as Hframe.
  pose proof (run_eq (_fetchFromTempest env) w1) as Hrun. rewrite Hprim1 in Hrun.
  remember (exec (_fetchFromTempest env) w1) as w2 eqn:Hw2. clear Hw2.
  unfold agrees_but_primary in Hframe. rewrite Hf in Hframe.
  set (L := _currentForecastLookahead w2) in Hframe.
  set (F := _futureForecast w2) in Hframe.
  clearbody L F. clear Hf. subst w2.
  set (w2 := set_futureForecast F
               (set_currentForecastLookahead L (set_currentForecast (Some f) w1))) in *.
  (* the secondary fetch *)
  assert (Hsec2 : _fetchFromOpenMeteoSecondary env w2 = (exec clear_secondary w2, inr tt)).
  { apply secondary_failure_swallowed. exact Hsec. }
  set (w3 := exec clear_secondary w2) in *.
  (* the append cycle and the statistics *)
  assert (Hrec : records (loaded (localStorage w3 !! _getStorageKey w3)) = Some recs)
    by exact Hrecs.
  pose proof (_recordComparison_run (now_record env) w3 recs Hrec) as Hrc.
  cbv zeta in Hrc.
  change (_currentForecast w3) with (Some f) in Hrc.
  change (_currentForecastLookahead w3) with L in Hrc.
  change (_currentActual w3) with (Some actual) in Hrc.
  change (config w3) with (config w) in Hrc.
  change (_getStorageKey w3) with (_getStorageKey w) in Hrc.
  change (localStorage w3) with (localStorage w) in Hrc.
  set (kept := retained (config w) (now_record env) _) in Hrc.
  set (log1 := {| pending_forecasts := _; records := Some kept; last_updated := _ |}) in Hrc.
  set (w4 := set_localStorage _ w3) in Hrc.
  assert (Hlog1 : current_format log1).
  { destruct Hfmt as (Hpend & recs' & Hrecs' & Hplain).
    rewrite Hrecs in Hrecs'. injection Hrecs' as <-.
    split; [exact Hpend|]. exists kept. split; [reflexivity|].
    apply Forall_retained, push_comparison_plain, Hplain. }
  assert (Hload4 : outcome _loadHistory w4 = inr log1).
  { unfold outcome. rewrite _loadHistory_loaded. cbn [snd]. f_equal.
    change (_getStorageKey w4) with (_getStorageKey w).
    change (localStorage w4) with (<[_getStorageKey w := Parsed log1]> (localStorage w)).
    rewrite lookup_insert_eq. now apply loaded_current_format. }
  pose proof (_calculateStatistics_run (now_statistics env) w4 log1 kept Hload4 eq_refl)
    as Hst.
  set (w5 := set_statistics _ w4) in Hst.
  assert (Hrecs5 : records (loaded_secondary (localStorage w5 !! _getStorageKeySecondary w5))
                   = Some recs2).
  { change (_getStorageKeySecondary w5) with (_getStorageKeySecondary w).
    change (localStorage w5) with (<[_getStorageKey w := Parsed log1]> (localStorage w)).
    rewrite lookup_insert_ne by apply storage_keys_differ. exact Hrecs2. }
  pose proof (_calculateStatisticsSecondary_run (now_statisticsSecondary env) w5 recs2 Hrecs5)
    as Hst2.
  set (w6 := set_statisticsSecondary _ w5) in Hst2.
  (* the cycle, step by step *)
  assert (Hcycle : _fetchData env w = (set_loading false w6, inr tt)).
  { unfold _fetchData.
    rewrite bind_gets, Hh, bool_decide_eq_true_2 by eauto. cbn [negb].
    rewrite !bind_modify. fold w0.
    unfold try_finally, try_catch.
    rewrite (bind_inr _ _ _ _ _ Hupd), !bind_gets.
    change (_isComparisonMode w1) with (_isComparisonMode w). rewrite Hmode.
    assert (Hstep : (_fetchFromTempest env ;; _fetchFromOpenMeteoSecondary env) w1
                    = (w3, inr tt)).
    { rewrite (bind_inr _ _ _ _ _ Hrun). exact Hsec2. }
    rewrite (bind_inr _ _ _ _ _ Hstep), !bind_gets.
    change (_currentForecast w3) with (Some f).
    change (_currentActual w3) with (Some actual).
    rewrite !bool_decide_eq_true_2 by eauto.
    cbn [andb when].
    rewrite (bind_inr _ _ _ _ _ Hrc), !bind_gets.
    change (_isComparisonMode w4) with (_isComparisonMode w). rewrite Hmode.
    change (_currentForecastSecondary w4) with (@None Q).
    rewrite bool_decide_eq_false_2 by (intros [? [=]]).
    cbn [andb when]. unfold ret at 1. unfold bind at 1.
    rewrite (bind_inr _ _ _ _ _ Hst), !bind_gets.
    change (_isComparisonMode w5) with (_isComparisonMode w). rewrite Hmode.
  cbn [when]. rewrite Hst2. reflexivity. }
  subst w'. unfold exec. rewrite Hcycle. cbn [fst].
  assert (Hstored : stored_records (_getStorageKey w) (set_loading false w6) = kept).
  { unfold stored_records.
    change (localStorage (set_loading false w6))
      with (<[_getStorageKey w := Parsed log1]> (localStorage w)).
    now rewrite lookup_insert_eq. }
  rewrite Hstored.
  repeat split.
  exists f. split; reflexivity.
Qed.

Lemma secondary_failure_does_not_fail_cycle_witness :
  let env := Station.env [Station.on_time] (HttpError 500) in
  let w' := exec (_fetchData env) (Station.fresh Station.cfg) in
  _error w' = None
  ∧ _currentForecastSecondary w' = None
  ∧ _currentActual w' = Some 19
  ∧ _currentForecast w' = Some 60
  ∧ (∃ s, _statistics w' = Some s ∧ recordCount s = 1%nat)
  ∧ (∃ s, _statisticsSecondary w' = Some s ∧ recordCount s = 0%nat).
Proof.
  cbv zeta.
  destruct (secondary_failure_does_not_fail_cycle
              (Station.env [Station.on_time] (HttpError 500))
              (Station.fresh Station.cfg) Sample.home
              {| state := "19"; unit_of_measurement := None |} 19 [] [])
    as (Herr & _ & Hsec & _ & _ & Hact & (f & Hf & Hstored) & Hst & Hst2).
  - reflexivity.
  - reflexivity.
  - reflexivity.
  - reflexivity.
  - reflexivity.
  - apply (secondary_http_error _ _ 500%N). reflexivity.
  - split; [reflexivity|]. exists []. split; [reflexivity | constructor].
  - reflexivity.
  - reflexivity.
  - split; [exact Herr|]. split; [exact Hsec|]. split; [exact Hact|].
    split; [reflexivity|].
    split; eexists; (split; [eassumption|]); reflexivity.
Defined.

(** * Further properties *)

(** ** Statistics engine: bounds and the chart window *)

Lemma sum_abs_triangle (l : list Q) : Qabs (sum l) <= sum (List.map Qabs l).
Proof.
  induction l as [|x l IH]; simpl.
  - apply Qle_refl.
  - eapply Qle_trans; [apply Qabs_triangle|].
    apply Qplus_le_r. exact IH.
Qed.

Lemma sum_abs_nonneg (l : list Q) : 0 <= sum (List.map Qabs l).
Proof.
  induction l as [|x l IH]; simpl; [apply Qle_refl|].
  pose proof (Qabs_nonneg x). lra.
Qed.

Lemma abs_errors_errors (recs : list ComparisonRecord) :
  abs_errors recs = List.map Qabs (errors recs).
Proof. unfold abs_errors, errors. now rewrite List.map_map. Qed.

Lemma len_le {A} (l1 l2 : list A) : (length l1 <= length l2)%nat → len l1 <= len l2.
Proof. intros H. unfold len, Qle. simpl. lia. Qed.

Lemma len_nonneg {A} (l : list A) : 0 <= len l.
Proof. unfold len, Qle. simpl. lia. Qed.

(** X1. On a non-empty list of loaded records the computed statistics are
    within bounds: [mae] is not negative, the magnitude of [bias] never
    exceeds [mae], and [accuracy] lies between 0 and 100. *)
Theorem statistics_bounds (now : Q) (w : World) (history : HistoryLog)
    (recs : list ComparisonRecord) :
  outcome _loadHistory w = inr history →
  records history = Some recs →
  recs ≠ [] →
  ∃ s m b acc,
    _statistics (exec (_calculateStatistics now) w) = Some s
    ∧ mae s = Some m ∧ bias s = Some b ∧ accuracy s = Some acc
    ∧ 0 <= m ∧ Qabs b <= m ∧ 0 <= acc ∧ acc <= 100.
Proof.
  intros Hload Hrecs Hne.
  unfold exec. rewrite (_calculateStatistics_run now w history recs Hload Hrecs).
  rewrite (statistics_of_nonempty recs now Hne). cbv zeta.
  eexists _, _, _, _. cbn [fst set_statistics _statistics mae bias accuracy].
  do 4 (split; [reflexivity|]).
  pose proof (len_pos recs Hne) as Hpos.
  pose proof (Qinv_lt_0_compat _ Hpos) as Hinv.
  assert (Habs : Qabs (sumDelta recs) <= sumAbsError recs).
  { rewrite sumDelta_sum, sumAbsError_sum, abs_errors_errors. apply sum_abs_triangle. }
  assert (Hnn : 0 <= sumAbsError recs).
  { rewrite sumAbsError_sum, abs_errors_errors. apply sum_abs_nonneg. }
  split; [|split; [|split]].
  - unfold Qdiv. apply Qmult_le_0_compat; [exact Hnn | apply Qlt_le_weak, Hinv].
  - unfold Qdiv. rewrite Qabs_Qmult.
    rewrite (Qabs_pos (/ len recs)) by apply Qlt_le_weak, Hinv.
    apply Qmult_le_compat_r; [exact Habs | apply Qlt_le_weak, Hinv].
  - apply Qmult_le_0_compat; [|discriminate].
    unfold Qdiv. apply Qmult_le_0_compat; [apply len_nonneg | apply Qlt_le_weak, Hinv].
  - assert (Hle : len (List.filter (λ r, JS.leb (Qabs (delta r)) 2) recs) / len recs <= 1).
    { apply Qle_shift_div_r; [exact Hpos|]. rewrite Qmult_1_l.
      apply len_le, filter_length_le. }
    lra.
Qed.

Lemma statistics_bounds_witness :
  ∃ s m b acc,
    _statistics (exec (_calculateStatistics Trend.now) Trend.world) = Some s
    ∧ mae s = Some m ∧ bias s = Some b ∧ accuracy s = Some acc
    ∧ 0 <= m ∧ Qabs b <= m ∧ 0 <= acc ∧ acc <= 100.
Proof.
  apply (statistics_bounds Trend.now Trend.world Trend.log
           [Trend.p1; Trend.p2; Trend.c1; Trend.c2]).
  - reflexivity.
  - reflexivity.
  - discriminate.
Defined.

(** X2. [recordCount] counts every loaded record, while [recentRecords]
    is the tail of the loaded list, in order, holding its last 168 records
    (all of them when there are fewer). *)
Theorem recent_window_is_tail (now : Q) (w : World) (history : HistoryLog)
    (recs : list ComparisonRecord) :
  outcome _loadHistory w = inr history →
  records history = Some recs →
  ∃ s older,
    _statistics (exec (_calculateStatistics now) w) = Some s
    ∧ recordCount s = length recs
    ∧ recs = older ++ recentRecords s
    ∧ length (recentRecords s) = Nat.min 168 (length recs).
Proof.
  intros Hload Hrecs.
  unfold exec. rewrite (_calculateStatistics_run now w history recs Hload Hrecs).
  cbn [fst set_statistics _statistics].
  exists (statistics_of recs now), (take (length recs - 168) recs).
  split; [reflexivity|].
  destruct recs as [|r recs']; [repeat split|].
  rewrite (statistics_of_nonempty (r :: recs') now) by discriminate.
  cbv zeta. cbn [recordCount recentRecords]. unfold slice_last.
  split; [reflexivity|]. split; [now rewrite take_drop|].
  rewrite length_drop. lia.
Qed.

Lemma recent_window_is_tail_witness :
  ∃ s older,
    _statistics (exec (_calculateStatistics Trend.now) Trend.world) = Some s
    ∧ recordCount s = 4%nat
    ∧ [Trend.p1; Trend.p2; Trend.c1; Trend.c2] = older ++ recentRecords s
    ∧ length (recentRecords s) = Nat.min 168 4.
Proof.
  apply (recent_window_is_tail Trend.now Trend.world Trend.log
           [Trend.p1; Trend.p2; Trend.c1; Trend.c2]); reflexivity.
Defined.

(** X3. A storage slot that is empty, holds text that does not parse, or
    holds a payload of the legacy shape gives the statistics of no record
    (all values null, trend stable), and the computation does not throw. *)
Theorem statistics_of_unusable_slot (now : Q) (w : World) :
  match localStorage w !! _getStorageKey w with
  | None | Some (Unparsable _) => True
  | Some (Parsed data) => is_legacy data = true
  end →
  _calculateStatistics now w = (set_statistics (Some no_statistics) w, inr tt).
Proof.
  intros Hslot.
  assert (Hload : outcome _loadHistory w = inr empty_log).
  { unfold outcome. rewrite _loadHistory_loaded. cbn [snd]. f_equal. unfold loaded.
    destruct (localStorage w !! _getStorageKey w) as [[raw|data]|]; try reflexivity.
    now rewrite Hslot. }
  apply (_calculateStatistics_run now w empty_log [] Hload eq_refl).
Qed.

Lemma statistics_of_unusable_slot_witness :
  let w := Sample.card Sample.cfg {[ Sample.key := Parsed Sample.log_legacy ]} in
  _calculateStatistics 10000000 w = (set_statistics (Some no_statistics) w, inr tt).
Proof.
  cbv zeta. apply statistics_of_unusable_slot. reflexivity.
Defined.

(** ** History store: round trip, order, independence of the two logs *)

Lemma _recordComparisonSecondary_run (now : Q) (w : World) (recs : list ComparisonRecord) :
  let history := loaded_secondary (localStorage w !! _getStorageKeySecondary w) in
  records history = Some recs →
  _recordComparisonSecondary now w =
  (set_localStorage
     (<[_getStorageKeySecondary w :=
          Parsed {| pending_forecasts := pending_forecasts history;
                    records :=
                      Some (retained (config w) now
                              (push_comparison
                                 (bool_decide (has_recent (config w) now recs)) now
                                 (_currentForecastSecondary w)
                                 (_currentForecastSecondaryLookahead w)
                                 (_currentActual w) recs));
                    last_updated := now |}]> (localStorage w)) w,
   inr tt).
Proof.
  intros history Hrecs. unfold _recordComparisonSecondary.
  rewrite (bind_inr _ _ _ _ _ (_loadHistorySecondary_loaded w)).
  rewrite bind_gets. fold history. rewrite Hrecs. simpl.
  unfold bind at 1. simpl. rewrite !bind_gets.
  rewrite prune_retained.
  replace (existsb _ recs) with (bool_decide (has_recent (config w) now recs)).
  - reflexivity.
  - destruct (existsb _ recs) eqn:E.
    + apply bool_decide_eq_true. now apply some_recent.
    + apply bool_decide_eq_false. intros H. apply some_recent in H. congruence.
Qed.

Lemma _recordComparisonSecondary_throws (now : Q) (w : World) :
  records (loaded_secondary (localStorage w !! _getStorageKeySecondary w)) = None →
  ∃ e, _recordComparisonSecondary now w = (w, inl e).
Proof.
  intros Hrecs. unfold _recordComparisonSecondary.
  rewrite (bind_inr _ _ _ _ _ (_loadHistorySecondary_loaded w)).
  rewrite bind_gets, Hrecs. simpl. eexists. reflexivity.
Qed.

Lemma increasing_retained (cfg : Config) (now : Q) (recs : list ComparisonRecord) :
  increasing recs → increasing (retained cfg now recs).
Proof.
  unfold increasing, retained. induction 1 as [|r recs Hsorted IH Hall].
  - constructor.
  - rewrite filter_cons. destruct (decide _); [|exact IH].
    constructor; [exact IH|].
    apply Forall_forall. intros r' Hr'. apply list_elem_of_filter in Hr' as [_ Hr'].
    rewrite Forall_forall in Hall. now apply Hall.
Qed.

(** X4. Round trip: after an append cycle that appends (log in the current
    format, no recent record, forecast and actual in hand, a positive
    retention), loading yields a log stamped with the instant of the cycle
    whose last record is the new comparison, with [delta] exactly
    [forecast - actual]. *)
Theorem append_then_load_roundtrip (now : Q) (w : World)
    (recs : list ComparisonRecord) (f a : Q) :
  current_format (loaded (localStorage w !! _getStorageKey w)) →
  records (loaded (localStorage w !! _getStorageKey w)) = Some recs →
  ¬ has_recent (config w) now recs →
  _currentForecast w = Some f →
  _currentActual w = Some a →
  0 < history_days (config w) →
  ∃ history',
    outcome _loadHistory (exec (_recordComparison now) w) = inr history'
    ∧ last_updated history' = now
    ∧ records history' ≫= last
      = Some {| timestamp := now; forecast := Some (JNumber f);
                forecastLookahead := _currentForecastLookahead w;
                actual := a; delta := f - a |}.
Proof.
  intros Hfmt Hrecs Hnone Hf Ha Hdays.
  destruct Hfmt as (Hpend & recs' & Hrecs' & Hplain).
  rewrite Hrecs in Hrecs'. injection Hrecs' as <-.
  unfold exec. rewrite (_recordComparison_run now w recs Hrecs). cbn [fst].
  rewrite bool_decide_eq_false_2 by exact Hnone.
  rewrite Hf, Ha. cbn [push_comparison].
  set (new := {| timestamp := now; forecast := _; forecastLookahead := _;
                 actual := a; delta := f - a |}).
  assert (Hkeep : retained (config w) now (recs ++ [new])
                  = retained (config w) now recs ++ [new]).
  { rewrite retained_app. f_equal. unfold retained.
    rewrite filter_cons, decide_True; [reflexivity|].
    unfold retention. cbn [timestamp new].
    assert (0 < history_days (config w) * 86400000) by nra. lra. }
  rewrite Hkeep.
  set (log1 := {| pending_forecasts := _; records := _; last_updated := now |}).
  exists log1. unfold outcome. rewrite _loadHistory_loaded. cbn [snd].
  change (_getStorageKey (set_localStorage _ w)) with (_getStorageKey w).
  cbn [localStorage set_localStorage]. rewrite lookup_insert_eq.
  rewrite loaded_current_format.
  - split; [reflexivity|]. split; [reflexivity|].
    cbn [log1 records mbind option_bind]. apply last_snoc.
  - split; [exact Hpend|]. eexists. split; [reflexivity|].
    apply Forall_app. split; [apply Forall_retained, Hplain | repeat constructor].
Qed.

Lemma append_then_load_roundtrip_witness :
  let w := Sample.card Sample.cfg {[ Sample.key := Parsed Sample.log0 ]} in
  ∃ history',
    outcome _loadHistory (exec (_recordComparison 13000000) w) = inr history'
    ∧ last_updated history' = 13000000
    ∧ records history' ≫= last
      = Some {| timestamp := 13000000; forecast := Some (JNumber 20);
                forecastLookahead := None; actual := 19; delta := 20 - 19 |}.
Proof.
  cbv zeta.
  apply (append_then_load_roundtrip 13000000
           (Sample.card Sample.cfg {[ Sample.key := Parsed Sample.log0 ]})
           [Sample.r0] 20 19).
  - split; [reflexivity|]. exists [Sample.r0]. split; [reflexivity|].
    repeat constructor.
  - reflexivity.
  - apply (bool_decide_eq_false_1 (has_recent _ _ _)). by_computation.
  - reflexivity.
  - reflexivity.
  - by_computation.
Defined.

(** X5. The append cycle keeps the stored timestamps strictly increasing:
    with a positive refresh interval, if the loaded records are in strictly
    increasing order of timestamp, so are the records stored afterwards. *)
Theorem append_keeps_timestamps_increasing (now : Q) (w : World)
    (recs : list ComparisonRecord) :
  records (loaded (localStorage w !! _getStorageKey w)) = Some recs →
  increasing recs →
  0 < refresh_interval (config w) →
  increasing (stored_records (_getStorageKey w) (exec (_recordComparison now) w)).
Proof.
  intros Hrecs Hinc Hpos.
  unfold exec. rewrite (_recordComparison_run now w recs Hrecs). cbn [fst].
  rewrite stored_records_insert. cbn [records default from_option].
  apply increasing_retained.
  destruct (decide (has_recent (config w) now recs)) as [Hrecent|Hnone].
  - rewrite bool_decide_eq_true_2 by exact Hrecent. exact Hinc.
  - rewrite bool_decide_eq_false_2 by exact Hnone.
    unfold push_comparison.
    destruct (_currentForecast w) as [f|]; [|exact Hinc].
    destruct (_currentActual w) as [a|]; [|exact Hinc].
    apply StronglySorted_app_2; [|exact Hinc|repeat constructor].
    intros r1 r2 Hr1 Hr2. apply list_elem_of_singleton in Hr2 as ->. cbn [timestamp].
    assert (Hold : ¬ now - dedupWindow (config w) < timestamp r1).
    { intros Hlt. apply Hnone. unfold has_recent. apply Exists_exists. eauto. }
    apply Qnot_lt_le in Hold. unfold dedupWindow in Hold.
    assert (0 < refresh_interval (config w) * 60000 * (8 # 10)) by nra. lra.
Qed.

Lemma append_keeps_timestamps_increasing_witness :
  let w := Sample.card Sample.cfg {[ Sample.key := Parsed Sample.log0 ]} in
  increasing (stored_records (_getStorageKey w) (exec (_recordComparison 13000000) w)).
Proof.
  cbv zeta.
  apply (append_keeps_timestamps_increasing 13000000 _ [Sample.r0]).
  - reflexivity.
  - repeat constructor.
  - by_computation.
Defined.

(** X6. The two logs are independent: an append cycle of the primary log
    leaves the slot of the secondary log as it was, and an append cycle of
    the secondary log leaves the slot of the primary log as it was. *)
Theorem append_cycles_keep_to_their_slot (now : Q) (w : World) :
  localStorage (exec (_recordComparison now) w) !! _getStorageKeySecondary w
  = localStorage w !! _getStorageKeySecondary w
  ∧ localStorage (exec (_recordComparisonSecondary now) w) !! _getStorageKey w
    = localStorage w !! _getStorageKey w.
Proof.
  split.
  - destruct (records (loaded (localStorage w !! _getStorageKey w))) as [recs|] eqn:Hrecs.
    + unfold exec. rewrite (_recordComparison_run now w recs Hrecs).
      cbn [fst localStorage set_localStorage].
      apply lookup_insert_ne, storage_keys_differ.
    + destruct (_recordComparison_throws now w Hrecs) as [e He].
      unfold exec. now rewrite He.
  - destruct (records (loaded_secondary (localStorage w !! _getStorageKeySecondary w)))
      as [recs|] eqn:Hrecs.
    + unfold exec. rewrite (_recordComparisonSecondary_run now w recs Hrecs).
      cbn [fst localStorage set_localStorage].
      apply lookup_insert_ne. intros H. symmetry in H. now apply storage_keys_differ in H.
    + destruct (_recordComparisonSecondary_throws now w Hrecs) as [e He].
      unfold exec. now rewrite He.
Qed.

(** X7. The first append cycle over a slot that does not parse, or that
    holds a payload of the legacy shape, replaces its content: with forecast
    and actual in hand and a positive retention, the slot then holds a log
    whose only record is the new comparison. *)
Theorem append_replaces_unusable_slot (now : Q) (w : World) (f a : Q) :
  match localStorage w !! _getStorageKey w with
  | Some (Unparsable _) => True
  | Some (Parsed data) => is_legacy data = true
  | None => False
  end →
  _currentForecast w = Some f →
  _currentActual w = Some a →
  0 < history_days (config w) →
  localStorage (exec (_recordComparison now) w) !! _getStorageKey w
  = Some (Parsed {| pending_forecasts := None;
                    records := Some [ {| timestamp := now; forecast := Some (JNumber f);
                                         forecastLookahead := _currentForecastLookahead w;
                                         actual := a; delta := f - a |} ];
                    last_updated := now |}).
Proof.
  intros Hslot Hf Ha Hdays.
  assert (Hload : loaded (localStorage w !! _getStorageKey w) = empty_log).
  { unfold loaded.
    destruct (localStorage w !! _getStorageKey w) as [[raw|data]|]; try reflexivity.
    now rewrite Hslot. }
  assert (Hrecs : records (loaded (localStorage w !! _getStorageKey w)) = Some [])
    by now rewrite Hload.
  unfold exec. rewrite (_recordComparison_run now w [] Hrecs).
  cbn [fst localStorage set_localStorage]. rewrite lookup_insert_eq, Hload, Hf, Ha.
  rewrite bool_decide_eq_false_2 by (unfold has_recent; intros H; inversion H).
  cbn [push_comparison app empty_log pending_forecasts].
  unfold retained. rewrite filter_cons, decide_True; [reflexivity|].
  unfold retention. cbn [timestamp].
  assert (0 < history_days (config w) * 86400000) by nra. lra.
Qed.

Lemma append_replaces_unusable_slot_witness :
  localStorage (exec (_recordComparison 13000000) Corrupt.world) !! _getStorageKey Corrupt.world
  = Some (Parsed {| pending_forecasts := None;
                    records := Some [ {| timestamp := 13000000;
                                         forecast := Some (JNumber 20);
                                         forecastLookahead := None;
                                         actual := 19; delta := 20 - 19 |} ];
                    last_updated := 13000000 |}).
Proof.
  apply (append_replaces_unusable_slot 13000000 Corrupt.world 20 19).
  - exact I.
  - reflexivity.
  - reflexivity.
  - by_computation.
Defined.

(** ** Forecast adapters *)


(** X8. A station fetch that returns on an array whose first entry has a
    timestamp takes the current forecast from an entry of the array that has
    a timestamp and an air temperature, normalized from Fahrenheit, and no
    entry with a non-zero timestamp is closer to the current unix second. *)
Theorem station_forecast_is_closest_entry (env : Env) (w : World) (data : TempestData)
    (first : HourlyEntry) (rest : list HourlyEntry) (t0 : Q) :
  tempest_fetch env = Body data →
  forecast_hourly data = Some (first :: rest) →
  time first = Some t0 →
  outcome (_fetchFromTempest env) w = inr tt →
  ∃ sel ts temp,
    sel ∈ first :: rest
    ∧ time sel = Some ts
    ∧ air_temperature sel = Some temp
    ∧ _currentForecast (exec (_fetchFromTempest env) w)
      = Some (normalize w temp (Some "F"%string))
    ∧ ∀ e t, e ∈ first :: rest → time e = Some t → JS.truthy_number t = true →
             Qabs (ts - unix_seconds (now_adapter env))
             <= Qabs (t - unix_seconds (now_adapter env)).
Proof.
  intros Hfetch Hhourly Hfirst.
  destruct (closest_hourly_minimizes (unix_seconds (now_adapter env)) first rest t0 Hfirst)
    as (Hin & ts & Hts & Hmin).
  destruct w.
  unfold outcome, exec, _fetchFromTempest, bind, gets, when, throw, modify, ret.
  cbn [config fst snd]. rewrite Hfetch, Hhourly.
  destruct (from_option _ false (status data)); [discriminate|].
  destruct (air_temperature (closest_hourly _ first rest)) as [temp|] eqn:Htemp;
    [|discriminate].
  intros _.
  exists (closest_hourly (unix_seconds (now_adapter env)) first rest), ts, temp.
  split; [exact Hin|]. split; [exact Hts|]. split; [exact Htemp|].
  split; [|exact Hmin].
  destruct (JS.ltb 0 (forecast_lookahead config0)); reflexivity.
Qed.

Lemma station_forecast_is_closest_entry_witness :
  ∃ sel ts temp,
    sel ∈ [Station.running_hour; Station.next_hour]
    ∧ time sel = Some ts
    ∧ air_temperature sel = Some temp
    ∧ _currentForecast
        (exec (_fetchFromTempest
                 (Station.env [Station.running_hour; Station.next_hour] (HttpError 500)))
           (Station.fresh Station.cfg))
      = Some (normalize (Station.fresh Station.cfg) temp (Some "F"%string))
    ∧ ∀ e t, e ∈ [Station.running_hour; Station.next_hour] → time e = Some t →
             JS.truthy_number t = true →
             Qabs (ts - unix_seconds Station.now) <= Qabs (t - unix_seconds Station.now).
Proof.
  apply (station_forecast_is_closest_entry
           (Station.env [Station.running_hour; Station.next_hour] (HttpError 500))
           (Station.fresh Station.cfg)
           {| status := Some {| status_code := Some 0; status_message := Some "SUCCESS"%string |};
              forecast_hourly := Some [Station.running_hour; Station.next_hour] |}
           Station.running_hour [Station.next_hour] 1699997000);
    reflexivity.
Defined.

(** X9. A failed fetch leaves the card as it was: a station fetch that
    throws has changed no field, and neither has a coordinate fetch that
    throws when no look-ahead is configured. *)
Theorem failed_fetch_changes_nothing (env : Env) (w : World) (e : exn) :
  (outcome (_fetchFromTempest env) w = inl e → exec (_fetchFromTempest env) w = w)
  ∧ (JS.ltb 0 (forecast_lookahead (config w)) = false →
     outcome (_fetchFromOpenMeteo env) w = inl e →
     exec (_fetchFromOpenMeteo env) w = w).
Proof.
  destruct w. split.
  - unfold outcome, exec, _fetchFromTempest, bind, gets, when, throw, modify, ret.
    cbn [config fst snd].
    run_cases; cbn; intros H; try discriminate H; reflexivity.
  - cbn [config]. intros Hla.
    unfold outcome, exec, _fetchFromOpenMeteo, bind, gets, when, throw, modify, ret.
    cbn [config fst snd]. rewrite Hla.
    run_cases; cbn; intros H; try discriminate H; reflexivity.
Qed.

Lemma failed_fetch_changes_nothing_witness :
  exec (_fetchFromTempest (Station.env [] (HttpError 500))) (Station.fresh Station.cfg)
  = Station.fresh Station.cfg
  ∧ exec (_fetchFromOpenMeteo (Station.env [] (HttpError 500))) (Station.fresh Sample.cfg)
    = Station.fresh Sample.cfg.
Proof.
  split.
  - apply (proj1 (failed_fetch_changes_nothing (Station.env [] (HttpError 500))
                    (Station.fresh Station.cfg)
                    (Throw "Tempest API: No hourly forecast data available"))).
    reflexivity.
  - apply (proj2 (failed_fetch_changes_nothing (Station.env [] (HttpError 500))
                    (Station.fresh Sample.cfg)
                    (Throw "Open-Meteo API error: 500"))).
    + reflexivity.
    + reflexivity.
Defined.



(** ** Refresh cycle: what it leaves alone *)

Lemma keeps_at_bind {A B V} (v : World → V) (c : M A) (k : A → M B) (w : World) :
  keeps_at v c w →
  (∀ a w1, c w = (w1, inr a) → v w1 = v w → keeps_at v (k a) w1) →
  keeps_at v (bind c k) w.
Proof.
  unfold keeps_at, exec, bind. intros Hc Hk.
  destruct (c w) as [w1 [e|a]] eqn:Hrun; cbn [fst] in *; [exact Hc|].
  rewrite (Hk a w1 eq_refl Hc). exact Hc.
Qed.

Lemma keeps_at_try_catch {A V} (v : World → V) (body : M A) (handler : exn → M A)
    (w : World) :
  keeps_at v body w →
  (∀ e w1, body w = (w1, inl e) → v w1 = v w → keeps_at v (handler e) w1) →
  keeps_at v (try_catch body handler) w.
Proof.
  unfold keeps_at, exec, try_catch. intros Hc Hk.
  destruct (body w) as [w1 [e|a]] eqn:Hrun; cbn [fst] in *; [|exact Hc].
  rewrite (Hk e w1 eq_refl Hc). exact Hc.
Qed.

Lemma keeps_bind {A B V} (v : World → V) (c : M A) (k : A → M B) :
  keeps v c → (∀ a, keeps v (k a)) → keeps v (bind c k).
Proof.
  intros Hc Hk w. apply keeps_at_bind; [apply Hc|]. intros a w1 _ _. apply Hk.
Qed.

Lemma keeps_try_catch {A V} (v : World → V) (body : M A) (handler : exn → M A) :
  keeps v body → (∀ e, keeps v (handler e)) → keeps v (try_catch body handler).
Proof.
  intros Hc Hk w. apply keeps_at_try_catch; [apply Hc|]. intros e w1 _ _. apply Hk.
Qed.

Lemma keeps_gets {A V} (v : World → V) (f : World → A) : keeps v (gets f).
Proof. intros w. reflexivity. Qed.

Lemma keeps_ret {A V} (v : World → V) (a : A) : keeps v (ret a).
Proof. intros w. reflexivity. Qed.

Lemma keeps_when {V} (v : World → V) (b : bool) (c : M unit) :
  keeps v c → keeps v (when b c).
Proof. intros Hc. destruct b; [exact Hc | apply keeps_ret]. Qed.

(** The shapes of the states the methods end in. *)

Lemma _updateActualTemperature_shape (env : Env) (w : World) :
  exec (_updateActualTemperature env) w = w
  ∨ ∃ o, exec (_updateActualTemperature env) w = set_currentActual o w.
Proof.
  unfold exec, _updateActualTemperature. rewrite !bind_gets.
  destruct (hass w) as [h|]; [|now left].
  destruct (states h !! _) as [s|]; [|now left].
  destruct (parseFloat env _); [right; eexists; reflexivity | now left].
Qed.

Lemma _fetchFromOpenMeteoSecondary_frame (env : Env) (w : World) :
  agrees_but_secondary w (exec (_fetchFromOpenMeteoSecondary env) w).
Proof.
  destruct w. unfold agrees_but_secondary, exec, _fetchFromOpenMeteoSecondary,
    clear_secondary, try_catch, bind, gets, throw, modify, ret.
  cbn [config fst snd].
  run_cases; reflexivity.
Qed.

Lemma _recordComparison_shape (now : Q) (w : World) :
  exec (_recordComparison now) w = w
  ∨ ∃ data, exec (_recordComparison now) w
            = set_localStorage (<[_getStorageKey w := Parsed data]> (localStorage w)) w.
Proof.
  destruct (records (loaded (localStorage w !! _getStorageKey w))) as [recs|] eqn:Hrecs.
  - right. unfold exec. rewrite (_recordComparison_run now w recs Hrecs).
    eexists. reflexivity.
  - left. destruct (_recordComparison_throws now w Hrecs) as [e He].
    unfold exec. now rewrite He.
Qed.

Lemma _recordComparisonSecondary_shape (now : Q) (w : World) :
  exec (_recordComparisonSecondary now) w = w
  ∨ ∃ data, exec (_recordComparisonSecondary now) w
            = set_localStorage
                (<[_getStorageKeySecondary w := Parsed data]> (localStorage w)) w.
Proof.
  destruct (records (loaded_secondary (localStorage w !! _getStorageKeySecondary w)))
    as [recs|] eqn:Hrecs.
  - right. unfold exec. rewrite (_recordComparisonSecondary_run now w recs Hrecs).
    eexists. reflexivity.
  - left. destruct (_recordComparisonSecondary_throws now w Hrecs) as [e He].
    unfold exec. now rewrite He.
Qed.

Lemma _calculateStatistics_shape (now : Q) (w : World) :
  exec (_calculateStatistics now) w = w
  ∨ ∃ s, exec (_calculateStatistics now) w = set_statistics s w.
Proof.
  unfold exec, _calculateStatistics.
  rewrite (bind_inr _ _ _ _ _ (_loadHistory_loaded w)).
  destruct (records _); [right; eexists; reflexivity | now left].
Qed.

Lemma _calculateStatisticsSecondary_shape (now : Q) (w : World) :
  exec (_calculateStatisticsSecondary now) w = w
  ∨ ∃ s, exec (_calculateStatisticsSecondary now) w = set_statisticsSecondary s w.
Proof.
  unfold exec, _calculateStatisticsSecondary.
  rewrite (bind_inr _ _ _ _ _ (_loadHistorySecondary_loaded w)).
  destruct (records _); [right; eexists; reflexivity | now left].
Qed.

(** No step of the cycle writes [hass], the configuration or the instant of
    the last fetch. *)

Ltac keeps_from_shape H :=
  intros w; unfold keeps_at;
  let o := fresh in
  destruct (H w) as [-> | [o ->]]; reflexivity.

Lemma keeps_inputs_update env : keeps cycle_inputs (_updateActualTemperature env).
Proof. keeps_from_shape (_updateActualTemperature_shape env). Qed.

Lemma keeps_inputs_tempest env : keeps cycle_inputs (_fetchFromTempest env).
Proof. intros w. unfold keeps_at. now rewrite (_fetchFromTempest_frame env w). Qed.

Lemma keeps_inputs_openmeteo env : keeps cycle_inputs (_fetchFromOpenMeteo env).
Proof. intros w. unfold keeps_at. now rewrite (_fetchFromOpenMeteo_frame env w). Qed.

Lemma keeps_inputs_secondary env : keeps cycle_inputs (_fetchFromOpenMeteoSecondary env).
Proof. intros w. unfold keeps_at. now rewrite (_fetchFromOpenMeteoSecondary_frame env w). Qed.

Lemma keeps_inputs_record now : keeps cycle_inputs (_recordComparison now).
Proof. keeps_from_shape (_recordComparison_shape now). Qed.

Lemma keeps_inputs_record_secondary now : keeps cycle_inputs (_recordComparisonSecondary now).
Proof. keeps_from_shape (_recordComparisonSecondary_shape now). Qed.

Lemma keeps_inputs_statistics now : keeps cycle_inputs (_calculateStatistics now).
Proof. keeps_from_shape (_calculateStatistics_shape now). Qed.

Lemma keeps_inputs_statistics_secondary now :
  keeps cycle_inputs (_calculateStatisticsSecondary now).
Proof. keeps_from_shape (_calculateStatisticsSecondary_shape now). Qed.

Lemma _fetchData_guarded (env : Env) (w : World) :
  _fetchData env w =
  match hass w with
  | None => (w, inr tt)
  | Some _ =>
      try_finally (guarded_cycle env) (modify (set_loading false))
        (set_lastFetch (now_fetchData env) (set_error None (set_loading true w)))
  end.
Proof.
  unfold _fetchData. rewrite bind_gets.
  destruct (hass w) as [h|].
  - rewrite bool_decide_eq_true_2 by eauto. reflexivity.
  - rewrite bool_decide_eq_false_2 by (intros [? [=]]). reflexivity.
Qed.

Lemma guarded_cycle_returns (env : Env) (w : World) :
  outcome (guarded_cycle env) w = inr tt.
Proof.
  unfold outcome, guarded_cycle, try_catch.
  match goal with |- context [match ?b with _ => _ end] => destruct b as [w1 [e|[]]] end;
    reflexivity.
Qed.

Lemma keeps_inputs_guarded (env : Env) : keeps cycle_inputs (guarded_cycle env).
Proof.
  unfold guarded_cycle.
  apply keeps_try_catch; [|intros e w; reflexivity].
  apply keeps_bind; [apply keeps_inputs_update|intros _].
  apply keeps_bind; [apply keeps_gets|intros comparison].
  apply keeps_bind; [apply keeps_gets|intros cfg].
  apply keeps_bind.
  { destruct comparison; [|destruct (hasTempest cfg)].
    - apply keeps_bind; [apply keeps_inputs_tempest|intros _; apply keeps_inputs_secondary].
    - apply keeps_inputs_tempest.
    - apply keeps_inputs_openmeteo. }
  intros _.
  apply keeps_bind; [apply keeps_gets|intros currentForecast].
  apply keeps_bind; [apply keeps_gets|intros currentActual].
  apply keeps_bind; [apply keeps_when, keeps_inputs_record|intros _].
  apply keeps_bind; [apply keeps_gets|intros comparison'].
  apply keeps_bind; [apply keeps_gets|intros currentForecastSecondary].
  apply keeps_bind; [apply keeps_gets|intros currentActual'].
  apply keeps_bind; [apply keeps_when, keeps_inputs_record_secondary|intros _].
  apply keeps_bind; [apply keeps_inputs_statistics|intros _].
  apply keeps_bind; [apply keeps_gets|intros comparison''].
  apply keeps_when, keeps_inputs_statistics_secondary.
Qed.

(** X11. A refresh cycle never throws.  Without [hass] it changes nothing;
    with [hass] it ends, whatever failed on the way, with the loading flag
    cleared and the instant of the last fetch set to its start, and with
    [hass] and the configuration as they were. *)
Theorem refresh_cycle_always_completes (env : Env) (w : World) :
  outcome (_fetchData env) w = inr tt
  ∧ match hass w with
    | None => exec (_fetchData env) w = w
    | Some _ =>
        let w' := exec (_fetchData env) w in
        _loading w' = false
        ∧ _lastFetch w' = now_fetchData env
        ∧ hass w' = hass w
        ∧ config w' = config w
    end.
Proof.
  unfold outcome, exec. rewrite _fetchData_guarded.
  destruct (hass w) as [h|] eqn:Hh; [|split; reflexivity].
  set (w0 := set_lastFetch (now_fetchData env) (set_error None (set_loading true w))).
  pose proof (guarded_cycle_returns env w0) as Hret.
  pose proof (keeps_inputs_guarded env w0) as Hkeep.
  unfold outcome in Hret. unfold keeps_at, exec, cycle_inputs in Hkeep.
  unfold try_finally. destruct (guarded_cycle env w0) as [w1 r].
  cbn [fst snd modify] in *. subst r.
  injection Hkeep as Hhass Hcfg Hlast.
  split; [reflexivity|]. cbv zeta. cbn.
  rewrite Hhass, Hcfg, Hlast. cbn. rewrite Hh. repeat split.
Qed.

(** X12. When the sensor is not among the states, or its state is not a
    number, the cycle ends with that error shown, the loading flag cleared
    and the instant of the last fetch set; every other field and the whole
    storage are what they were: no forecast is taken, nothing is recorded. *)
Theorem sensor_failure_aborts_cycle (env : Env) (w : World) (h : Hass) :
  hass w = Some h →
  (states h !! temperature_sensor (config w) = None →
   exec (_fetchData env) w
   = set_loading false
       (set_error (Some ("Sensor not found: " +:+ temperature_sensor (config w)))
          (set_lastFetch (now_fetchData env) w)))
  ∧ (∀ sensorState,
       states h !! temperature_sensor (config w) = Some sensorState →
       parseFloat env (state sensorState) = None →
       exec (_fetchData env) w
       = set_loading false
           (set_error (Some ("Invalid sensor state: " +:+ state sensorState))
              (set_lastFetch (now_fetchData env) w))).
Proof.
  intros Hh. unfold exec. rewrite _fetchData_guarded, Hh.
  unfold try_finally, guarded_cycle, try_catch.
  split.
  - intros Hs.
    assert (Hupd : _updateActualTemperature env
                     (set_lastFetch (now_fetchData env) (set_error None (set_loading true w)))
                   = (set_lastFetch (now_fetchData env) (set_error None (set_loading true w)),
                      inl (Throw ("Sensor not found: " +:+ temperature_sensor (config w))))).
    { unfold _updateActualTemperature. rewrite !bind_gets. cbn [hass config set_lastFetch
        set_error set_loading]. rewrite Hh, Hs. reflexivity. }
    rewrite (bind_inl _ _ _ _ _ Hupd). destruct w; reflexivity.
  - intros sensorState Hs Hp.
    assert (Hupd : _updateActualTemperature env
                     (set_lastFetch (now_fetchData env) (set_error None (set_loading true w)))
                   = (set_lastFetch (now_fetchData env) (set_error None (set_loading true w)),
                      inl (Throw ("Invalid sensor state: " +:+ state sensorState)))).
    { unfold _updateActualTemperature. rewrite !bind_gets. cbn [hass config set_lastFetch
        set_error set_loading]. rewrite Hh, Hs, Hp. reflexivity. }
    rewrite (bind_inl _ _ _ _ _ Hupd). destruct w; reflexivity.
Qed.

Lemma sensor_failure_aborts_cycle_witness :
  exec (_fetchData (Station.env [] (HttpError 500))) (Station.fresh Missing.cfg)
  = set_loading false
      (set_error (Some "Sensor not found: sensor.gone"%string)
         (set_lastFetch Station.now (Station.fresh Missing.cfg))).
Proof.
  apply (proj1 (sensor_failure_aborts_cycle (Station.env [] (HttpError 500))
                  (Station.fresh Missing.cfg) Sample.home eq_refl)).
  reflexivity.
Defined.

(** Outside comparison mode no step touches what belongs to the secondary
    source. *)

Lemma keeps_secondary_update env : keeps secondary_view (_updateActualTemperature env).
Proof. keeps_from_shape (_updateActualTemperature_shape env). Qed.

Lemma keeps_secondary_tempest env : keeps secondary_view (_fetchFromTempest env).
Proof. intros w. unfold keeps_at. now rewrite (_fetchFromTempest_frame env w). Qed.

Lemma keeps_secondary_openmeteo env : keeps secondary_view (_fetchFromOpenMeteo env).
Proof. intros w. unfold keeps_at. now rewrite (_fetchFromOpenMeteo_frame env w). Qed.

Lemma keeps_secondary_record now : keeps secondary_view (_recordComparison now).
Proof.
  intros w. unfold keeps_at.
  destruct (_recordComparison_shape now w) as [-> | [data ->]]; [reflexivity|].
  unfold secondary_view. cbn [config set_localStorage _currentForecastSecondary
    _currentForecastSecondaryLookahead _futureForecastSecondary _statisticsSecondary
    localStorage].
  change (_getStorageKeySecondary (set_localStorage _ w)) with (_getStorageKeySecondary w).
  now rewrite lookup_insert_ne by apply storage_keys_differ.
Qed.

Lemma keeps_secondary_statistics now : keeps secondary_view (_calculateStatistics now).
Proof. keeps_from_shape (_calculateStatistics_shape now). Qed.

Lemma secondary_view_mode (w w1 : World) :
  secondary_view w1 = secondary_view w → _isComparisonMode w1 = _isComparisonMode w.
Proof. unfold secondary_view, _isComparisonMode. intros [= -> _ _ _ _ _]. reflexivity. Qed.

Lemma keeps_at_gets {A B V} (v : World → V) (f : World → A) (k : A → M B) (w : World) :
  keeps_at v (k (f w)) w → keeps_at v (bind (gets f) k) w.
Proof. exact id. Qed.

Lemma keeps_at_ret_bind {A B V} (v : World → V) (a : A) (k : A → M B) (w : World) :
  keeps_at v (k a) w → keeps_at v (bind (ret a) k) w.
Proof. exact id. Qed.

(** X13. Outside comparison mode a refresh cycle leaves everything of the
    secondary source as it was: its three forecast fields, its statistics
    and its storage slot. *)
Theorem single_source_cycle_leaves_secondary (env : Env) (w : World) :
  _isComparisonMode w = false →
  let w' := exec (_fetchData env) w in
  _currentForecastSecondary w' = _currentForecastSecondary w
  ∧ _currentForecastSecondaryLookahead w' = _currentForecastSecondaryLookahead w
  ∧ _futureForecastSecondary w' = _futureForecastSecondary w
  ∧ _statisticsSecondary w' = _statisticsSecondary w
  ∧ localStorage w' !! _getStorageKeySecondary w
    = localStorage w !! _getStorageKeySecondary w.
Proof.
  intros Hmode.
  assert (Hview : secondary_view (exec (_fetchData env) w) = secondary_view w).
  { unfold exec. rewrite _fetchData_guarded.
    destruct (hass w) as [h|]; [|reflexivity].
    set (w0 := set_lastFetch (now_fetchData env) (set_error None (set_loading true w))).
    assert (Hmode0 : _isComparisonMode w0 = false) by exact Hmode.
    assert (Hguard : keeps_at secondary_view (guarded_cycle env) w0).
    { clearbody w0. clear Hmode. revert Hmode0. generalize w0. clear w0. intros w0 Hmode0.
      unfold guarded_cycle.
      apply keeps_at_try_catch; [|intros e w1 _ _; reflexivity].
      apply keeps_at_bind; [apply keeps_secondary_update|intros _ w1 _ Hv1].
      apply keeps_at_gets. rewrite (secondary_view_mode _ _ Hv1), Hmode0.
      apply keeps_at_gets.
      apply keeps_at_bind.
      { destruct (hasTempest (config w1));
          [apply keeps_secondary_tempest | apply keeps_secondary_openmeteo]. }
      intros _ w2 _ Hv2. rewrite Hv1 in Hv2.
      do 2 apply keeps_at_gets.
      apply keeps_at_bind; [apply keeps_when, keeps_secondary_record|intros _ w3 _ Hv3].
      rewrite Hv2 in Hv3.
      apply keeps_at_gets. rewrite (secondary_view_mode _ _ Hv3), Hmode0.
      do 2 apply keeps_at_gets. cbn [andb when].
      apply keeps_at_ret_bind.
      apply keeps_at_bind; [apply keeps_secondary_statistics|intros _ w5 _ Hv5].
      rewrite Hv3 in Hv5.
      apply keeps_at_gets. rewrite (secondary_view_mode _ _ Hv5), Hmode0.
      apply keeps_ret. }
    unfold keeps_at, exec in Hguard. unfold try_finally.
    destruct (guarded_cycle env w0) as [w1 r]. cbn [fst] in *.
    cbn [modify fst]. etransitivity; [|exact Hguard]. reflexivity. }
  cbv zeta. unfold secondary_view in Hview.
  injection Hview as Hcfg H1 H2 H3 H4 H5.
  unfold _getStorageKeySecondary in *. rewrite Hcfg in H5. auto.
Qed.

Lemma single_source_cycle_leaves_secondary_witness :
  let env := Station.env [] (Body {| current := Some {| temperature_2m := Some 21 |};
                                     hourly := None |}) in
  let w := Sample.card Sample.cfg ∅ in
  let w' := exec (_fetchData env) w in
  _currentForecastSecondary w' = _currentForecastSecondary w
  ∧ _currentForecastSecondaryLookahead w' = _currentForecastSecondaryLookahead w
  ∧ _futureForecastSecondary w' = _futureForecastSecondary w
  ∧ _statisticsSecondary w' = _statisticsSecondary w
  ∧ localStorage w' !! _getStorageKeySecondary w
    = localStorage w !! _getStorageKeySecondary w.
Proof.
  cbv zeta. apply single_source_cycle_leaves_secondary. reflexivity.
Defined.

(** ** Unit normalizer: display unit, round trip, differences *)

Section NormalizerMore.

Local Open Scope string_scope.

(** X14. Without a configured unit the display unit is read from the
    Home Assistant unit system: Fahrenheit exactly when its temperature unit
    is the one-letter string "F", Celsius for every other value (the usual
    "°F" included) and when there is none. *)
Theorem display_unit_from_locale (cfg : Config) (hass : option Hass) :
  from_option JS.truthy_string false (unit_ cfg) = false →
  (hass ≫= unit_system_temperature = Some "F" ∧ _getDisplayUnit cfg hass = "F")
  ∨ (hass ≫= unit_system_temperature ≠ Some "F" ∧ _getDisplayUnit cfg hass = "C").
Proof.
  intros Hunit. unfold _getDisplayUnit.
  assert (Hloc :
    (hass ≫= unit_system_temperature = Some "F"
     ∧ match hass ≫= unit_system_temperature with
       | Some t => if JS.truthy_string t then (if String.eqb t "F" then "F" else "C") else "C"
       | None => "C"
       end = "F")
    ∨ (hass ≫= unit_system_temperature ≠ Some "F"
       ∧ match hass ≫= unit_system_temperature with
         | Some t => if JS.truthy_string t then (if String.eqb t "F" then "F" else "C") else "C"
         | None => "C"
         end = "C")).
  { destruct (hass ≫= unit_system_temperature) as [t|]; [|right; split; [discriminate|reflexivity]].
    destruct (String.eqb_spec t "F") as [->|Hne].
    - left. split; reflexivity.
    - right. split; [congruence|]. now destruct (JS.truthy_string t). }
  destruct (unit_ cfg) as [u|]; [|exact Hloc].
  cbn [from_option] in Hunit. rewrite Hunit. exact Hloc.
Qed.

Lemma display_unit_from_locale_witness :
  _getDisplayUnit
    {| temperature_sensor := "sensor.outdoor"; latitude := Some 52; longitude := Some 13;
       tempest_api_key := None; tempest_station_id := None; unit_ := None;
       history_days := 7; refresh_interval := 60; forecast_lookahead := 0 |}
    (Some {| states := ∅; unit_system_temperature := Some "°F" |})
  = "C".
Proof.
  destruct (display_unit_from_locale
              {| temperature_sensor := "sensor.outdoor"; latitude := Some 52;
                 longitude := Some 13; tempest_api_key := None;
                 tempest_station_id := None; unit_ := None;
                 history_days := 7; refresh_interval := 60; forecast_lookahead := 0 |}
              (Some {| states := ∅; unit_system_temperature := Some "°F" |}) eq_refl)
    as [[Hloc _] | [_ Hunit]].
  - discriminate Hloc.
  - exact Hunit.
Defined.

(** X15. The two conversions undo each other: a Celsius value normalized
    for a Fahrenheit display and then, as a Fahrenheit value, for a Celsius
    display is the value itself, and likewise from Fahrenheit. *)
Theorem normalize_round_trip (cfgC cfgF : Config) (hassC hassF : option Hass) (value : Q) :
  _getDisplayUnit cfgC hassC = "C" →
  _getDisplayUnit cfgF hassF = "F" →
  _normalizeTemperature cfgC hassC
    (_normalizeTemperature cfgF hassF value (Some "C")) (Some "F") == value
  ∧ _normalizeTemperature cfgF hassF
      (_normalizeTemperature cfgC hassC value (Some "F")) (Some "C") == value.
Proof.
  intros HC HF.
  rewrite !(normalize_f_to_c cfgC hassC _ (Some "F") eq_refl HC).
  rewrite !(normalize_c_to_f cfgF hassF _ (Some "C") eq_refl HF).
  split; field.
Qed.

Lemma normalize_round_trip_witness :
  _normalizeTemperature Sample.cfg None
    (_normalizeTemperature Station.cfg None 21 (Some "C")) (Some "F") == 21
  ∧ _normalizeTemperature Station.cfg None
      (_normalizeTemperature Sample.cfg None 70 (Some "F")) (Some "C") == 70.
Proof.
  split.
  - apply (proj1 (normalize_round_trip Sample.cfg Station.cfg None None 21
                    eq_refl eq_refl)).
  - apply (proj2 (normalize_round_trip Sample.cfg Station.cfg None None 70
                    eq_refl eq_refl)).
Defined.

Lemma c_to_f_mono (x y : Q) : x <= y → c_to_f x <= c_to_f y.
Proof.
  intros Hle. unfold c_to_f.
  assert (Ex : x * 9 / 5 == (9 # 5) * x) by field.
  assert (Ey : y * 9 / 5 == (9 # 5) * y) by field.
  rewrite Ex, Ey. lra.
Qed.

Lemma f_to_c_mono (x y : Q) : x <= y → f_to_c x <= f_to_c y.
Proof.
  intros Hle. unfold f_to_c.
  assert (Ex : (x - 32) * 5 / 9 == (5 # 9) * (x - 32)) by field.
  assert (Ey : (y - 32) * 5 / 9 == (5 # 9) * (y - 32)) by field.
  rewrite Ex, Ey. lra.
Qed.

(** X16. Normalizing keeps the order of two readings of one source unit,
    and for a Fahrenheit display of Celsius readings their difference is
    nine fifths of the Celsius difference: a delta, and the two-degree
    accuracy band with it, is in display units. *)
Theorem normalize_differences (cfg : Config) (hass : option Hass) (x y : Q)
    (sourceUnit : option string) :
  (x <= y →
   _normalizeTemperature cfg hass x sourceUnit <= _normalizeTemperature cfg hass y sourceUnit)
  ∧ (denotes "C" sourceUnit → _getDisplayUnit cfg hass = "F" →
     _normalizeTemperature cfg hass x sourceUnit - _normalizeTemperature cfg hass y sourceUnit
     == (9 # 5) * (x - y)).
Proof.
  split.
  - intros Hle. unfold _normalizeTemperature.
    repeat match goal with
           | |- context [if ?b then _ else _] => destruct b
           end;
      first [exact Hle | apply c_to_f_mono, Hle | apply f_to_c_mono, Hle].
  - intros Hden HF. rewrite !(normalize_c_to_f cfg hass _ sourceUnit Hden HF). field.
Qed.

Lemma normalize_differences_witness :
  _normalizeTemperature Station.cfg None 22 (Some "°C")
  - _normalizeTemperature Station.cfg None 20 (Some "°C") == (9 # 5) * (22 - 20).
Proof.
  apply (proj2 (normalize_differences Station.cfg None 22 20 (Some "°C"))); reflexivity.
Defined.

End NormalizerMore.

(** ** Between two fetches *)

Lemma _fetchData_inputs (env : Env) (w : World) (h : Hass) :
  hass w = Some h →
  cycle_inputs (exec (_fetchData env) w) = (hass w, config w, now_fetchData env).
Proof.
  intros Hh. unfold exec. rewrite _fetchData_guarded, Hh.
  set (w0 := set_lastFetch (now_fetchData env) (set_error None (set_loading true w))).
  pose proof (keeps_inputs_guarded env w0) as Hkeep.
  unfold keeps_at, exec in Hkeep. unfold try_finally.
  destruct (guarded_cycle env w0) as [w1 r]. cbn [fst modify] in *.
  etransitivity; [|etransitivity; [exact Hkeep|]].
  - reflexivity.
  - unfold cycle_inputs. cbn. now rewrite Hh.
Qed.

Lemma updated_within_interval (env : Env) (now : Q) (w : World) (h : Hass) :
  hass w = Some h →
  ¬ _lastFetch w == 0 →
  now - _lastFetch w <= refresh_interval (config w) * 60000 →
  updated env true now w = _updateActualTemperature env w.
Proof.
  intros Hh Hlast Hnow. unfold updated.
  rewrite bind_gets, Hh, bool_decide_eq_true_2 by eauto. cbn [andb when].
  rewrite !bind_gets.
  assert (E1 : JS.ltb (refresh_interval (config w) * 60 * 1000) (now - _lastFetch w) = false).
  { apply ltb_ge. lra. }
  assert (E2 : Qeq_bool (_lastFetch w) 0 = false).
  { destruct (Qeq_bool (_lastFetch w) 0) eqn:E; [|reflexivity].
    apply Qeq_bool_eq in E. contradiction. }
  now rewrite E1, E2.
Qed.

(** X17. A change of [hass] within the refresh interval of the last fetch
    does not start a cycle: it only reads the sensor again.  With the sensor
    readable the current actual temperature is replaced and nothing else;
    with the sensor missing from the states the exception leaves [updated]
    and the card is as it was, its error field included. *)
Theorem update_between_fetches (env : Env) (now : Q) (w : World) (h : Hass) :
  hass w = Some h →
  ¬ _lastFetch w == 0 →
  now - _lastFetch w <= refresh_interval (config w) * 60000 →
  (∀ sensorState value,
     states h !! temperature_sensor (config w) = Some sensorState →
     parseFloat env (state sensorState) = Some value →
     updated env true now w
     = (set_currentActual
          (Some (normalize w value (unit_of_measurement sensorState))) w, inr tt))
  ∧ (states h !! temperature_sensor (config w) = None →
     updated env true now w
     = (w, inl (Throw ("Sensor not found: " +:+ temperature_sensor (config w))))).
Proof.
  intros Hh Hlast Hnow.
  rewrite (updated_within_interval env now w h Hh Hlast Hnow).
  split.
  - intros sensorState value Hs Hp.
    now apply (_updateActualTemperature_run env w h).
  - intros Hs. unfold _updateActualTemperature. rewrite !bind_gets, Hh, Hs. reflexivity.
Qed.

Lemma update_between_fetches_witness :
  let w := set_lastFetch 1699999000000 (Station.fresh Sample.cfg) in
  updated (Station.env [] (HttpError 500)) true Station.now w
  = (set_currentActual (Some 19) w, inr tt).
Proof.
  cbv zeta.
  apply (proj1 (update_between_fetches (Station.env [] (HttpError 500)) Station.now
                  (set_lastFetch 1699999000000 (Station.fresh Sample.cfg))
                  Sample.home eq_refl ltac:(by_computation) ltac:(by_computation))
           {| state := "19"; unit_of_measurement := None |} 19);
    reflexivity.
Defined.

(** X18. A refresh cycle stamps the instant of its start, so a change of
    [hass] that arrives within the refresh interval of that instant starts
    no second cycle: storage, forecast, statistics and error stay as the
    cycle left them. *)
Theorem update_after_cycle_fetches_nothing (env env' : Env) (now : Q) (w : World)
    (h : Hass) :
  hass w = Some h →
  ¬ now_fetchData env == 0 →
  now - now_fetchData env <= refresh_interval (config w) * 60000 →
  let w1 := exec (_fetchData env) w in
  let w2 := exec (updated env' true now) w1 in
  localStorage w2 = localStorage w1
  ∧ _currentForecast w2 = _currentForecast w1
  ∧ _statistics w2 = _statistics w1
  ∧ _error w2 = _error w1
  ∧ _lastFetch w2 = now_fetchData env.
Proof.
  intros Hh Hnz Hnow w1 w2.
  pose proof (_fetchData_inputs env w h Hh) as Hin. fold w1 in Hin.
  unfold cycle_inputs in Hin. injection Hin as Hhass Hcfg Hlast.
  assert (Hupd : updated env' true now w1 = _updateActualTemperature env' w1).
  { apply (updated_within_interval env' now w1 h).
    - now rewrite Hhass.
    - now rewrite Hlast.
    - now rewrite Hlast, Hcfg. }
  assert (Hw2 : w2 = exec (_updateActualTemperature env') w1).
  { unfold w2, exec. now rewrite Hupd. }
  clearbody w2. subst w2.
  destruct (_updateActualTemperature_shape env' w1) as [-> | [o ->]];
    cbn; rewrite ?Hlast; repeat split.
Qed.

Lemma update_after_cycle_fetches_nothing_witness :
  let env := Station.env [Station.on_time] (HttpError 500) in
  let w1 := exec (_fetchData env) (Station.fresh Station.cfg) in
  let w2 := exec (updated env true (Station.now + 1000)) w1 in
  localStorage w2 = localStorage w1
  ∧ _currentForecast w2 = _currentForecast w1
  ∧ _statistics w2 = _statistics w1
  ∧ _error w2 = _error w1
  ∧ _lastFetch w2 = Station.now.
Proof.
  cbv zeta.
  apply (update_after_cycle_fetches_nothing
           (Station.env [Station.on_time] (HttpError 500))
           (Station.env [Station.on_time] (HttpError 500))
           (Station.now + 1000) (Station.fresh Station.cfg) Sample.home eq_refl);
    by_computation.
Defined.

(** ** Configuration: what [setConfig] guarantees, and the editor *)

Section Configuration.

Local Open Scope string_scope.

Lemma or_else_truthy (o : option ConfigValue) (d : ConfigValue) :
  truthy_value d = true → truthy_value (or_else o d) = true.
Proof.
  intros Hd. unfold or_else. destruct o as [v|]; [|exact Hd].
  destruct (truthy_value v) eqn:E; [exact E | exact Hd].
Qed.

Lemma or_else_null (o : option ConfigValue) :
  or_else o CNull = CNull ∨ (truthy_field o = true ∧ o = Some (or_else o CNull)).
Proof.
  unfold or_else, truthy_field. destruct o as [v|]; [|now left].
  cbn [from_option]. destruct (truthy_value v); [right; split; reflexivity | now left].
Qed.

Lemma nullable_string_not_empty (o : option ConfigValue) (r : option string) :
  nullable as_string (or_else o CNull) = Some r →
  r ≠ Some EmptyString ∧ from_option JS.truthy_string false r = truthy_field o.
Proof.
  unfold or_else, truthy_field. destruct o as [v|]; cbn [from_option].
  - destruct (truthy_value v) eqn:E.
    + destruct v as [|b|q|s]; cbn; intros [= <-]; try discriminate.
      cbn in E. split; [|exact E]. intros [= ->]. discriminate.
    + cbn. intros [= <-]. split; [discriminate|reflexivity].
  - cbn. intros [= <-]. split; [discriminate|reflexivity].
Qed.

(** X19. Every configuration that [setConfig] accepts and whose fields
    have the expected types names a complete forecast source (both
    coordinates, or both station credentials), has a refresh interval and a
    retention that are not zero, and holds no empty string as a credential or
    as the unit: an empty one has become null. *)
Theorem accepted_config_is_complete (config : gmap string ConfigValue)
    (c : CardConfig.t) (cfg : Config) :
  setConfig config = inr c →
  typed_config c = Some cfg →
  hasCoordinates cfg || hasTempest cfg = true
  ∧ ¬ refresh_interval cfg == 0
  ∧ ¬ history_days cfg == 0
  ∧ tempest_api_key cfg ≠ Some EmptyString
  ∧ tempest_station_id cfg ≠ Some EmptyString
  ∧ unit_ cfg ≠ Some EmptyString.
Proof.
  unfold setConfig.
  destruct (negb (truthy_field (config !! "temperature_sensor"))); [discriminate|].
  destruct (negb _ && negb _) eqn:Hsrc; [discriminate|].
  intros [= <-]. unfold typed_config. cbn [CardConfig.temperature_sensor
    CardConfig.latitude CardConfig.longitude CardConfig.tempest_api_key
    CardConfig.tempest_station_id CardConfig.unit_ CardConfig.history_days
    CardConfig.refresh_interval CardConfig.forecast_lookahead].
  destruct (as_string (default CNull (config !! "temperature_sensor"))) as [sensor|];
    [|discriminate].
  cbn [mbind option_bind].
  destruct (optional as_number (config !! "latitude")) as [lat|] eqn:Hlat; [|discriminate].
  destruct (optional as_number (config !! "longitude")) as [lon|] eqn:Hlon; [|discriminate].
  destruct (nullable as_string (or_else (config !! "tempest_api_key") CNull))
    as [key|] eqn:Hkey; [|discriminate].
  destruct (nullable as_string (or_else (config !! "tempest_station_id") CNull))
    as [station|] eqn:Hstation; [|discriminate].
  destruct (nullable as_string (or_else (config !! "unit") CNull))
    as [u|] eqn:Hu; [|discriminate].
  destruct (as_number (or_else (config !! "history_days") (CNumber DEFAULT_HISTORY_DAYS)))
    as [days|] eqn:Hdays; [|discriminate].
  destruct (as_number (or_else (config !! "refresh_interval")
                         (CNumber DEFAULT_REFRESH_INTERVAL)))
    as [interval|] eqn:Hint; [|discriminate].
  destruct (as_number (or_else (config !! "forecast_lookahead") (CNumber 0)))
    as [lookahead|]; [|discriminate].
  cbn [mbind option_bind]. intros [= <-].
  cbn [refresh_interval history_days tempest_api_key tempest_station_id unit_].
  apply nullable_string_not_empty in Hkey as [Hkey Hkeyt].
  apply nullable_string_not_empty in Hstation as [Hstation Hstationt].
  apply nullable_string_not_empty in Hu as [Hu _].
  assert (Hnz : ∀ o d q, truthy_value d = true → as_number (or_else o d) = Some q →
                         ¬ q == 0).
  { intros o d q Hd Hq. pose proof (or_else_truthy o d Hd) as Ht.
    destruct (or_else o d) as [|b|q'|s]; try discriminate.
    injection Hq as <-. cbn in Ht. unfold JS.truthy_number in Ht.
    apply negb_true_iff in Ht. now apply Qeq_bool_neq. }
  split; [|split; [eapply Hnz; [|exact Hint]; reflexivity
          |split; [eapply Hnz; [|exact Hdays]; reflexivity|auto]]].
  unfold hasCoordinates, hasTempest.
  cbn [latitude longitude tempest_api_key tempest_station_id].
  rewrite Hkeyt, Hstationt.
  apply andb_false_iff in Hsrc. rewrite !negb_false_iff in Hsrc.
  destruct Hsrc as [Hc | Ht]; [|now rewrite Ht, orb_true_r].
  apply andb_true_iff in Hc as [Hc1 Hc2].
  apply bool_decide_eq_true in Hc1 as [v1 Hv1], Hc2 as [v2 Hv2].
  rewrite Hv1 in Hlat. rewrite Hv2 in Hlon. cbn in Hlat, Hlon.
  destruct (as_number v1); [|discriminate]. destruct (as_number v2); [|discriminate].
  injection Hlat as <-. injection Hlon as <-.
  rewrite !bool_decide_eq_true_2 by eauto. reflexivity.
Qed.

Lemma accepted_config_is_complete_witness :
  hasCoordinates Yaml.cfg || hasTempest Yaml.cfg = true
  ∧ ¬ refresh_interval Yaml.cfg == 0
  ∧ ¬ history_days Yaml.cfg == 0
  ∧ tempest_api_key Yaml.cfg ≠ Some EmptyString
  ∧ tempest_station_id Yaml.cfg ≠ Some EmptyString
  ∧ unit_ Yaml.cfg ≠ Some EmptyString.
Proof.
  eapply (accepted_config_is_complete Yaml.raw); by_computation.
Defined.

Lemma setSourceType_config (sourceType : string) (ed : Editor) :
  ∃ c, _config (EditorMethods._setSourceType sourceType ed) = Some c
       ∧ last (dispatched (EditorMethods._setSourceType sourceType ed)) = Some c
       ∧ (if String.eqb sourceType "tempest" then
            c !! "tempest_api_key" = Some (CString EmptyString)
            ∧ c !! "tempest_station_id" = Some (CString EmptyString)
            ∧ c !! "latitude" = None ∧ c !! "longitude" = None
          else
            c !! "latitude" = Some (CNumber 0) ∧ c !! "longitude" = Some (CNumber 0)
            ∧ c !! "tempest_api_key" = None ∧ c !! "tempest_station_id" = None)
       ∧ ∀ k, k ∉ source_keys → c !! k = default ∅ (_config ed) !! k.
Proof.
  unfold EditorMethods._setSourceType, EditorMethods._fireConfigChanged.
  cbn [_config dispatched]. eexists. split; [reflexivity|].
  split; [apply last_snoc|].
  split.
  - destruct (String.eqb sourceType "tempest"); repeat split; now simplify_map_eq.
  - intros k Hk. unfold source_keys in Hk.
    rewrite !not_elem_of_cons in Hk. destruct Hk as (H1 & H2 & H3 & H4 & _).
    destruct (String.eqb sourceType "tempest"); now simplify_map_eq.
Qed.

(** X20. Choosing a source in the editor and asking for the source type
    agree: after [_setSourceType] the type is the station provider exactly
    when that was the choice, and every key that does not name a source is
    as it was. *)
Theorem source_type_round_trip (sourceType : string) (ed : Editor) :
  let ed' := EditorMethods._setSourceType sourceType ed in
  EditorMethods._getSourceType ed'
  = (if String.eqb sourceType "tempest" then "tempest" else "openmeteo")
  ∧ ∀ k, k ∉ source_keys →
         default ∅ (_config ed') !! k = default ∅ (_config ed) !! k.
Proof.
  cbv zeta.
  destruct (setSourceType_config sourceType ed) as (c & Hc & _ & Hsrc & Hother).
  unfold EditorMethods._getSourceType. rewrite Hc. cbn [default from_option id].
  split; [|exact Hother].
  destruct (String.eqb sourceType "tempest").
  - destruct Hsrc as (-> & _). now rewrite bool_decide_eq_true_2 by eauto.
  - destruct Hsrc as (_ & _ & -> & ->).
    now rewrite !bool_decide_eq_false_2 by (intros [? [=]]).
Qed.

(** X21. What the editor dispatches on a choice of source meets the card
    as follows: right after the station provider is chosen, its two
    credentials being empty strings, the card's [setConfig] rejects the
    configuration; right after the coordinate provider is chosen, a
    configuration with a sensor is accepted, with both coordinates at 0. *)
Theorem chosen_source_meets_card (ed : Editor) :
  (∃ c e, last (dispatched (EditorMethods._setSourceType "tempest" ed)) = Some c
          ∧ setConfig c = inl e)
  ∧ (truthy_field (default ∅ (_config ed) !! "temperature_sensor") = true →
     ∃ c cc, last (dispatched (EditorMethods._setSourceType "openmeteo" ed)) = Some c
             ∧ setConfig c = inr cc
             ∧ CardConfig.latitude cc = Some (CNumber 0)
             ∧ CardConfig.longitude cc = Some (CNumber 0)
             ∧ CardConfig.tempest_api_key cc = CNull
             ∧ CardConfig.tempest_station_id cc = CNull).
Proof.
  split.
  - destruct (setSourceType_config "tempest" ed) as (c & _ & Hlast & Hsrc & _).
    cbn in Hsrc. destruct Hsrc as (Hkey & Hstation & Hlat & Hlon).
    exists c. unfold setConfig. rewrite Hkey, Hstation, Hlat, Hlon.
    destruct (negb (truthy_field (c !! "temperature_sensor"))); eexists; eauto.
  - intros Hsensor.
    destruct (setSourceType_config "openmeteo" ed) as (c & _ & Hlast & Hsrc & Hother).
    cbn in Hsrc. destruct Hsrc as (Hlat & Hlon & Hkey & Hstation).
    exists c. unfold setConfig.
    rewrite (Hother "temperature_sensor"), Hsensor
      by (unfold source_keys; rewrite !not_elem_of_cons; repeat split; try discriminate;
          apply not_elem_of_nil).
    rewrite Hkey, Hstation, Hlat, Hlon. cbn.
    eexists. split; [exact Hlast|]. repeat split.
Qed.

Lemma chosen_source_meets_card_witness :
  ∃ c cc, last (dispatched (EditorMethods._setSourceType "openmeteo" Yaml.editor)) = Some c
          ∧ setConfig c = inr cc
          ∧ CardConfig.latitude cc = Some (CNumber 0)
          ∧ CardConfig.longitude cc = Some (CNumber 0)
          ∧ CardConfig.tempest_api_key cc = CNull
          ∧ CardConfig.tempest_station_id cc = CNull.
Proof.
  apply (proj2 (chosen_source_meets_card Yaml.editor)). reflexivity.
Defined.

(** X22. Emptying a field removes its key, and the source type is read
    from the keys: once both station fields have been emptied by the user
    the editor is back on the coordinate provider, whatever else the
    configuration holds. *)
Theorem emptied_station_fields_switch_source (ed : Editor) :
  let ed' :=
    EditorMethods._valueChanged "tempest_station_id" (Some (CString EmptyString))
      (EditorMethods._valueChanged "tempest_api_key" (Some (CString EmptyString)) ed) in
  EditorMethods._getSourceType ed' = "openmeteo"
  ∧ default ∅ (_config ed') !! "tempest_api_key" = None
  ∧ default ∅ (_config ed') !! "tempest_station_id" = None.
Proof.
  cbv zeta. unfold EditorMethods._valueChanged, EditorMethods._fireConfigChanged,
    EditorMethods._getSourceType.
  destruct (_config ed) as [c|] eqn:Hc; cbn [_config dispatched]; rewrite ?Hc;
    cbn [_config dispatched default from_option id].
  - assert (H1 : delete "tempest_station_id" (delete "tempest_api_key" c)
                 !! "tempest_api_key" = None) by now simplify_map_eq.
    assert (H2 : delete "tempest_station_id" (delete "tempest_api_key" c)
                 !! "tempest_station_id" = None) by now simplify_map_eq.
    rewrite H1, H2. rewrite !bool_decide_eq_false_2 by (intros [? [=]]). auto.
  - rewrite !lookup_empty. rewrite !bool_decide_eq_false_2 by (intros [? [=]]). auto.
Qed.

Lemma editor_do_dispatches (ed : Editor) (a : EditorAction) :
  is_Some (_config ed) →
  is_Some (_config (editor_do ed a))
  ∧ last (dispatched (editor_do ed a)) = _config (editor_do ed a)
  ∧ length (dispatched (editor_do ed a)) = S (length (dispatched ed)).
Proof.
  intros [c Hc]. destruct a as [key value|sourceType|enabled];
    unfold editor_do, EditorMethods._valueChanged, EditorMethods._setSourceType,
      EditorMethods._toggleComparison, EditorMethods._fireConfigChanged;
    rewrite ?Hc; cbn [_config dispatched];
    (split; [eauto|]); rewrite last_snoc, length_app; cbn [length];
    (split; [reflexivity | lia]).
Qed.

(** X23. The editor and Home Assistant stay in step: on an editor that
    holds a configuration, every action dispatches exactly one
    [config-changed] event, and after any non-empty run of actions the last
    event dispatched carries the configuration the editor holds. *)
Theorem editor_dispatches_what_it_holds (ed : Editor) (actions : list EditorAction) :
  is_Some (_config ed) →
  actions ≠ [] →
  let ed' := editor_run ed actions in
  last (dispatched ed') = _config ed'
  ∧ length (dispatched ed') = (length (dispatched ed) + length actions)%nat.
Proof.
  intros Hc Hne. cbv zeta. unfold editor_run.
  revert ed Hc Hne. induction actions as [|a actions IH]; intros ed Hc Hne;
    [contradiction|].
  cbn [fold_left].
  destruct (editor_do_dispatches ed a Hc) as (Hc' & Hlast & Hlen).
  destruct actions as [|a' actions'].
  - cbn [fold_left length]. split; [exact Hlast | lia].
  - destruct (IH (editor_do ed a) Hc' ltac:(discriminate)) as (IH1 & IH2).
    split; [exact IH1|]. rewrite IH2, Hlen. cbn [length]. lia.
Qed.

Lemma editor_dispatches_what_it_holds_witness :
  let ed' := editor_run Yaml.editor
               [SetSourceType "tempest";
                ValueChanged "tempest_api_key" (Some (CString "key"));
                ToggleComparison true] in
  last (dispatched ed') = _config ed'
  ∧ length (dispatched ed') = (0 + 3)%nat.
Proof.
  apply (editor_dispatches_what_it_holds Yaml.editor
           [SetSourceType "tempest";
            ValueChanged "tempest_api_key" (Some (CString "key"));
            ToggleComparison true]).
  - eexists. reflexivity.
  - discriminate.
Defined.

End Configuration.

(** ** The refresh timer and the loader of the chart library *)

Lemma timer_do_one_timer (others : gmap positive Q) (t : Timers) (c : TimerCall) :
  (∀ id, is_Some (others !! id) → (id < next_timer t)%positive) →
  one_timer others t →
  (∀ id, is_Some (others !! id) → (id < next_timer (timer_do t c))%positive)
  ∧ one_timer others (timer_do t c).
Proof.
  intros Hfresh Hone.
  assert (Hstop : intervals (_stopRefreshTimer t) = others
                  ∧ next_timer (_stopRefreshTimer t) = next_timer t
                  ∧ _refreshTimer (_stopRefreshTimer t) = None).
  { unfold _stopRefreshTimer, one_timer in *.
    destruct (_refreshTimer t) as [id|] eqn:Hid; cbn.
    - destruct Hone as (Hnone & period & ->).
      split; [now apply delete_insert_id | split; reflexivity].
    - split; [exact Hone | split; [reflexivity | exact Hid]]. }
  destruct Hstop as (Hint & Hnext & Hnone).
  destruct c as [cfg|]; cbn [timer_do].
  - unfold _startRefreshTimer, setInterval, one_timer.
    cbn [_refreshTimer intervals next_timer]. rewrite Hint, Hnext.
    split.
    + intros id Hid. specialize (Hfresh id Hid). lia.
    + split; [|eexists; reflexivity].
      destruct (others !! next_timer t) eqn:E; [|reflexivity].
      specialize (Hfresh (next_timer t) ltac:(eauto)). lia.
  - split; [now rewrite Hnext|]. unfold one_timer. now rewrite Hnone.
Qed.

(** X24. The card never holds more than one interval timer and never
    touches the timers of others: on a page whose identifiers were all handed
    out before, after any sequence of [_startRefreshTimer] and
    [_stopRefreshTimer] the active timers are those of the others plus, when
    [_refreshTimer] is set, the one it names; a restart clears the previous
    timer, and after a stop none of the card's is left. *)
Theorem refresh_timer_never_leaks (others : gmap positive Q) (next : positive)
    (calls : list TimerCall) :
  (∀ id, is_Some (others !! id) → (id < next)%positive) →
  let t := fold_left timer_do calls (timers_of_page others next) in
  one_timer others t
  ∧ (last calls = Some StopRefreshTimer →
     _refreshTimer t = None ∧ intervals t = others).
Proof.
  intros Hfresh. cbv zeta.
  assert (Hgen : ∀ t0,
    (∀ id, is_Some (others !! id) → (id < next_timer t0)%positive) →
    one_timer others t0 →
    one_timer others (fold_left timer_do calls t0)
    ∧ (last calls = Some StopRefreshTimer →
       _refreshTimer (fold_left timer_do calls t0) = None)).
  { induction calls as [|c calls IH]; intros t0 Hf Hone.
    - split; [exact Hone | discriminate].
    - cbn [fold_left].
      destruct (timer_do_one_timer others t0 c Hf Hone) as (Hf' & Hone').
      destruct (IH (timer_do t0 c) Hf' Hone') as (IH1 & IH2).
      split; [exact IH1|]. intros Hlast.
      destruct calls as [|c' calls'].
      + cbn in Hlast. injection Hlast as ->. cbn [fold_left timer_do].
        unfold _stopRefreshTimer. destruct (_refreshTimer t0) eqn:E; [reflexivity | exact E].
      + apply IH2. exact Hlast. }
  destruct (Hgen (timers_of_page others next) Hfresh eq_refl) as (H1 & H2).
  split; [exact H1|]. intros Hlast. specialize (H2 Hlast).
  split; [exact H2|]. unfold one_timer in H1. now rewrite H2 in H1.
Qed.

Lemma refresh_timer_never_leaks_witness :
  let t := fold_left timer_do
             [StartRefreshTimer Sample.cfg; StartRefreshTimer Station.cfg; StopRefreshTimer]
             (timers_of_page {[ 3%positive := 1000 ]} 7) in
  one_timer {[ 3%positive := 1000 ]} t
  ∧ (last [StartRefreshTimer Sample.cfg; StartRefreshTimer Station.cfg; StopRefreshTimer]
     = Some StopRefreshTimer →
     _refreshTimer t = None ∧ intervals t = {[ 3%positive := 1000 ]}).
Proof.
  apply (refresh_timer_never_leaks {[ 3%positive := 1000 ]} 7
           [StartRefreshTimer Sample.cfg; StartRefreshTimer Station.cfg; StopRefreshTimer]).
  intros id [p Hid]. apply lookup_singleton_Some in Hid as [<- _]. reflexivity.
Defined.

Lemma loader_step_coherent (l l' : Loader) (ev : LoaderEvent) :
  loader_coherent l →
  loader_step l ev = Some l' →
  loader_coherent l'
  ∧ accounted l' ≡ₚ accounted l ++ called [ev].
Proof.
  intros (Hflight & Hwait). unfold accounted.
  destruct ev as [p| |]; cbn [loader_step called omap].
  - intros [= <-]. unfold loadApexCharts, loader_coherent.
    destruct (apexChartsLoaded l && window_ApexCharts l) eqn:Hready;
      [|destruct (apexChartsLoading l) eqn:Hloading];
      cbn [scripts_in_flight apexChartsLoading apexChartsCallbacks apexChartsLoaded
           window_ApexCharts resolved rejected].
    + split; [auto|]. rewrite <- !(assoc_L (++)).
      apply Permutation_app_head.
      etrans; [apply Permutation_app_comm|]. now rewrite <- (assoc_L (++)).
    + split; [split; [exact Hflight | discriminate]|].
      now rewrite <- !(assoc_L (++)).
    + split; [rewrite Hflight; split; [reflexivity | discriminate]|].
      now rewrite <- !(assoc_L (++)).
  - destruct (0 <? scripts_in_flight l)%nat eqn:Hpos; [|discriminate].
    intros [= <-]. apply Nat.ltb_lt in Hpos.
    unfold script_onload, loader_coherent.
    cbn [scripts_in_flight apexChartsLoading apexChartsCallbacks apexChartsLoaded
         window_ApexCharts resolved rejected].
    split.
    + destruct (apexChartsLoading l); [rewrite Hflight; auto | lia].
    + rewrite !app_nil_r, <- (assoc_L (++)).
      apply Permutation_app_head, Permutation_app_comm.
  - destruct (0 <? scripts_in_flight l)%nat eqn:Hpos; [|discriminate].
    intros [= <-]. apply Nat.ltb_lt in Hpos.
    unfold script_onerror, loader_coherent.
    cbn [scripts_in_flight apexChartsLoading apexChartsCallbacks apexChartsLoaded
         window_ApexCharts resolved rejected].
    split.
    + destruct (apexChartsLoading l); [rewrite Hflight; auto | lia].
    + now rewrite !app_nil_r.
Qed.

(** X25. The loader is single-flight and loses no promise: over every run
    of calls and script endings from the initial state, at most one script
    is in flight, and exactly while loading; no promise waits without a
    script in flight; and the promises handed out are, each as often as it
    was handed out, those resolved, rejected or still waiting. *)
Theorem loader_single_flight (evs : list LoaderEvent) (l : Loader) :
  loader_run loader_start evs = Some l →
  loader_coherent l
  ∧ (scripts_in_flight l <= 1)%nat
  ∧ called evs ≡ₚ accounted l.
Proof.
  assert (Hgen : ∀ l0 l1, loader_coherent l0 → loader_run l0 evs = Some l1 →
                          loader_coherent l1 ∧ accounted l1 ≡ₚ accounted l0 ++ called evs).
  { induction evs as [|ev evs IH]; intros l0 l1 Hco.
    - cbn. intros [= <-]. split; [exact Hco | now rewrite app_nil_r].
    - cbn [loader_run]. destruct (loader_step l0 ev) as [l0'|] eqn:Hstep; [|discriminate].
      cbn [mbind option_bind]. intros Hrun.
      destruct (loader_step_coherent l0 l0' ev Hco Hstep) as (Hco' & Hacc').
      destruct (IH l0' l1 Hco' Hrun) as (Hco1 & Hacc1).
      split; [exact Hco1|]. rewrite Hacc1, Hacc'.
      rewrite <- (assoc_L (++)). apply Permutation_app_head.
      change (ev :: evs) with ([ev] ++ evs). unfold called. now rewrite omap_app. }
  intros Hrun.
  destruct (Hgen loader_start l ltac:(repeat split; auto; discriminate) Hrun)
    as (Hco & Hacc).
  split; [exact Hco|]. split.
  - destruct Hco as (Hflight & _). rewrite Hflight. destruct (apexChartsLoading l); lia.
  - now rewrite Hacc.
Qed.

Lemma loader_single_flight_witness :
  ∃ l, loader_run loader_start [Call 1; Call 2; ScriptFailed; Call 3; ScriptLoaded; Call 4]
       = Some l
       ∧ loader_coherent l
       ∧ (scripts_in_flight l <= 1)%nat
       ∧ [1; 2; 3; 4]%nat ≡ₚ accounted l.
Proof.
  eexists. split; [reflexivity|].
  apply (loader_single_flight [Call 1; Call 2; ScriptFailed; Call 3; ScriptLoaded; Call 4]).
  reflexivity.
Defined.
